(** * sol-tracker: option validation, environment gate, transport and heartbeat

    A shallow embedding of [src/scripts/main.js].  Pure helpers become
    functions on strings and JavaScript values; the stateful part
    ([send], [create] and the closures it returns) is written as explicit
    state passing over a [World] that holds the closure variables, the
    interval timers, the requests in flight and the trace of observable
    effects (console output, [fetch] calls, calls of caller-supplied
    callbacks). *)

From Stdlib Require Import Ascii String.
From stdpp Require Import base option list strings gmap fin_maps.

Local Open Scope string_scope.
Local Open Scope list_scope.

#[local] Set Warnings "-register-all".

(** ** JavaScript values and exceptions *)

(** The values the script inspects: what [JSON.parse] can produce, plus
    [undefined].  Numbers are never looked into by the script, so an
    integer payload stands for them.  An object keeps its fields in source
    order; a later duplicate key shadows an earlier one. *)
Inductive value :=
| VUndefined
| VNull
| VBool (b : bool)
| VNum (n : Z)
| VStr (s : string)
| VArr (xs : list value)
| VObj (fields : list (string * value)).

Inductive error :=
| TypeError                 (* property read on [undefined] or [null] *)
| SyntaxError               (* [response.json()] on a body that is not JSON *)
| FetchFailed               (* the promise of [fetch] rejected *)
| Error_ (message : value)  (* [new Error(message)] *)
| Thrown (payload : value). (* thrown by a caller-supplied callback *)

Inductive result (A : Type) :=
| Ok (a : A)
| Throw (e : error).
Arguments Ok {A} a.
Arguments Throw {A} e.

#[global] Instance result_ret : MRet result := fun A a => Ok a.

#[global] Instance result_bind : MBind result := fun A B k r =>
  match r with
  | Ok a => k a
  | Throw e => Throw e
  end.

(** [o[k]] for an own property of an object literal. *)
Fixpoint lookup_field (k : string) (fields : list (string * value)) : option value :=
  match fields with
  | [] => None
  | (k', v) :: rest =>
      match lookup_field k rest with
      | Some v' => Some v'
      | None => if String.eqb k k' then Some v else None
      end
  end.

(** [v.k] for the property names the script reads (none of them is
    inherited from a prototype): a [TypeError] on [undefined] and [null],
    [undefined] on a primitive or on a missing field. *)
Definition get (v : value) (k : string) : result value :=
  match v with
  | VUndefined | VNull => Throw TypeError
  | VObj fields => Ok (default VUndefined (lookup_field k fields))
  | _ => Ok VUndefined
  end.

(** [v[0]]. *)
Definition get0 (v : value) : result value :=
  match v with
  | VUndefined | VNull => Throw TypeError
  | VArr xs => Ok (default VUndefined (head xs))
  | VStr (String c _) => Ok (VStr (String c ""))
  | VObj fields => Ok (default VUndefined (lookup_field "0" fields))
  | _ => Ok VUndefined
  end.

(** [v === true], [v !== false], [v != null]. *)
Definition is_true (v : value) : bool :=
  match v with VBool true => true | _ => false end.

Definition is_not_false (v : value) : bool :=
  match v with VBool false => false | _ => true end.

Definition not_nullish (v : value) : bool :=
  match v with VUndefined | VNull => false | _ => true end.

(** ** String helpers: [substr(-1)], [split], case folding *)

(** [s.substr(-1)]: the last character, or the empty string. *)
Fixpoint substr_last (s : string) : string :=
  match s with
  | "" => ""
  | String c "" => String c ""
  | String _ rest => substr_last rest
  end.

(** [s.substr(0, 2)]. *)
Definition substr_0_2 (s : string) : string :=
  match s with
  | String a (String b _) => String a (String b "")
  | _ => s
  end.

(** [s.split(sep)] for a non-empty literal separator: [cur] is the piece
    being read, [skip] counts the characters of a separator just matched
    that are still to be dropped. *)
Fixpoint split_go (sep : string) (skip : nat) (cur : string) (s : string) : list string :=
  match s with
  | "" => [cur]
  | String c rest =>
      match skip with
      | S k => split_go sep k cur rest
      | O =>
          if String.prefix sep s
          then cur :: split_go sep (String.length sep - 1) "" rest
          else split_go sep 0 (cur +:+ String c "") rest
      end
  end.

Definition split (sep s : string) : list string := split_go sep 0 "" s.

Definition lower (c : ascii) : ascii :=
  let n := nat_of_ascii c in
  if (65 <=? n)%nat && (n <=? 90)%nat then ascii_of_nat (n + 32) else c.

Fixpoint lowercase (s : string) : string :=
  match s with
  | "" => ""
  | String c rest => String (lower c) (lowercase rest)
  end.

Fixpoint contains (pat s : string) : bool :=
  String.prefix pat s ||
  match s with
  | "" => false
  | String _ rest => contains pat rest
  end.

(** ** Options *)

Record options := {
  detailed : bool;
  ignoreLocalhost : bool;
  ignoreOwnVisits : bool;
}.

(** [validate(options = {})]: the default applies to [undefined] only. *)
Definition validate (opts : value) : result options :=
  let opts := match opts with VUndefined => VObj [] | _ => opts end in
  d ← get opts "detailed";
  l ← get opts "ignoreLocalhost";
  o ← get opts "ignoreOwnVisits";
  Ok {| detailed := is_true d;
        ignoreLocalhost := is_not_false l;
        ignoreOwnVisits := is_not_false o |}.

(** ** Environment classification *)

Definition isLocalhost (hostname : string) : bool :=
  String.eqb hostname "" ||
  String.eqb hostname "localhost" ||
  String.eqb hostname "127.0.0.1" ||
  String.eqb hostname "::1".

(** [/bot|crawler|spider|crawling/i.test(userAgent)]. *)
Definition isBot (userAgent : string) : bool :=
  let ua := lowercase userAgent in
  contains "bot" ua || contains "crawler" ua ||
  contains "spider" ua || contains "crawling" ua.

Definition fakeId : string := "88888888-8888-8888-8888-888888888888".

Definition isFakeId (id : value) : bool :=
  match id with
  | VStr s => String.eqb s fakeId
  | _ => false
  end.

(** ** Attribute collection *)

(** The ambient page state read by the script. *)
Record Env := {
  hostname : string;              (* location.hostname *)
  search : string;                (* location.search *)
  href : string;                  (* window.location.href *)
  referrer : string;              (* document.referrer *)
  userAgent : string;             (* navigator.userAgent *)
  language : string;              (* navigator.language || navigator.userLanguage *)
  screenWidth : value;
  screenHeight : value;
  screenColorDepth : value;
  platformProduct : value;
  platformManufacturer : value;
  platformOsFamily : value;
  platformOsVersion : value;
  platformName : value;
  platformVersion : value;
  outerWidth : value;
  outerHeight : value;
}.

(** [(x || '')] on the second piece of a split. *)
Definition or_empty (piece : option string) : string :=
  match piece with
  | Some s => s
  | None => ""
  end.

(** [source()], on [location.search]; [None] stands for [undefined]. *)
Definition source (search : string) : option string :=
  let s := default "" (head (split "&" (or_empty (split "source=" search !! 1%nat)))) in
  if String.eqb s "" then None else Some s.

Definition of_source (s : option string) : value :=
  match s with
  | Some s => VStr s
  | None => VUndefined
  end.

Definition attributes (env : Env) (detailed : bool) : value :=
  let defaultData :=
    [ ("siteLocation", VStr (href env));
      ("siteReferrer", VStr (referrer env));
      ("source", of_source (source (search env))) ] in
  let detailedData :=
    [ ("siteLanguage", VStr (substr_0_2 (language env)));
      ("screenWidth", screenWidth env);
      ("screenHeight", screenHeight env);
      ("screenColorDepth", screenColorDepth env);
      ("deviceName", platformProduct env);
      ("deviceManufacturer", platformManufacturer env);
      ("osName", platformOsFamily env);
      ("osVersion", platformOsVersion env);
      ("browserName", platformName env);
      ("browserVersion", platformVersion env);
      ("browserWidth", outerWidth env);
      ("browserHeight", outerHeight env) ] in
  VObj (defaultData ++ (if detailed then detailedData else [])).

(** The [source] query parameter as the documentation describes it: the
    query string without its leading [?] is a list of [name=value] pairs
    separated by [&]; the first pair named [source] gives the value, and
    an empty value counts as absent. *)
Definition drop_question (search : string) : string :=
  match search with
  | String "?" rest => rest
  | _ => search
  end.

Fixpoint until_eq (s : string) : string * option string :=
  match s with
  | "" => ("", None)
  | String "=" rest => ("", Some rest)
  | String c rest => let '(n, v) := until_eq rest in (String c n, v)
  end.

Fixpoint first_named (name : string) (pairs : list string) : option string :=
  match pairs with
  | [] => None
  | p :: rest =>
      let '(n, v) := until_eq p in
      if String.eqb n name then Some (or_empty v) else first_named name rest
  end.

Definition source_parameter (search : string) : option string :=
  match first_named "source" (split "&" (drop_question search)) with
  | Some v => if String.eqb v "" then None else Some v
  | None => None
  end.

(** ** Request bodies and the endpoint *)

(** The four query texts, with the line breaks and tabs of the template
    literals. *)
Definition createRecordQuery : string := "
			mutation createRecord($domainId: ID!, $input: CreateRecordInput!) {
				createRecord(domainId: $domainId, input: $input) {
					payload {
						id
					}
				}
			}
		".
Definition updateRecordQuery : string := "
			mutation updateRecord($recordId: ID!) {
				updateRecord(id: $recordId) {
					success
				}
			}
		".
Definition createActionQuery : string := "
			mutation createAction($eventId: ID!, $input: CreateActionInput!) {
				createAction(eventId: $eventId, input: $input) {
					payload {
						id
					}
				}
			}
		".
Definition updateActionQuery : string := "
			mutation updateAction($actionId: ID!, $input: UpdateActionInput!) {
				updateAction(id: $actionId, input: $input) {
					success
				}
			}
		".

Definition createRecordBody (domainId input : value) : value :=
  VObj [ ("query", VStr createRecordQuery);
         ("variables", VObj [ ("domainId", domainId); ("input", input) ]) ].

Definition updateRecordBody (recordId : value) : value :=
  VObj [ ("query", VStr updateRecordQuery);
         ("variables", VObj [ ("recordId", recordId) ]) ].

Definition createActionBody (eventId input : value) : value :=
  VObj [ ("query", VStr createActionQuery);
         ("variables", VObj [ ("eventId", eventId); ("input", input) ]) ].

Definition updateActionBody (actionId input : value) : value :=
  VObj [ ("query", VStr updateActionQuery);
         ("variables", VObj [ ("actionId", actionId); ("input", input) ]) ].

Definition endpoint (server : string) : string :=
  let hasTrailingSlash := String.eqb (substr_last server) "/" in
  server +:+ (if hasTrailingSlash then "" else "/") +:+ "api".

(** ** The world: closure variables, timers, requests in flight, trace *)

Inductive credentials := CredOmit | CredInclude.

(** The second argument of [fetch]; [req_body] is the value handed to
    [JSON.stringify]. *)
Record request := {
  req_url : string;
  req_method : string;
  req_content_type : string;
  req_credentials : credentials;
  req_body : value;
}.

(** A function supplied by the page ([next] of [record] and [action]).
    Calling it is observable through its [fn_tag]; it returns, or it
    throws (or returns a promise that rejects with) some error. *)
Record user_fn := {
  fn_tag : nat;
  fn_body : value -> option error;
}.

(** The functions that reach [send] as [next]: a function of the page, or
    one of the two arrow functions of [create] with the variables it
    closes over.  [cell] is the index of the closure's [isStopped]. *)
Inductive next_fn :=
| Caller (f : user_fn)
| RecordCreated (cell : nat) (url : string) (opts : options) (next : option user_fn)
| ActionCreated (next : option user_fn).

(** The arrow function given to [setInterval], with what it closes over. *)
Inductive heartbeat :=
| Heartbeat (cell : nat) (url : string) (opts : options) (recordId : value).

Definition hb_cell (hb : heartbeat) : nat :=
  match hb with Heartbeat cell _ _ _ => cell end.

Inductive event :=
| Warn (msg : string)            (* console.warn *)
| LogError (e : error)           (* console.error *)
| Fetch (r : request)            (* fetch(url, init) *)
| Called (tag : nat) (arg : value).

Record World := {
  hidden : bool;                          (* document.visibilityState === 'hidden' *)
  isStopped : list bool;                  (* one [isStopped] per call of _record/_updateRecord *)
  intervals : gmap nat heartbeat;         (* timers set and not yet cleared *)
  next_interval : nat;
  inflight : gmap nat (option next_fn);   (* requests without a response yet, with their [next] *)
  next_fetch : nat;
  trace : list event;                     (* oldest first *)
  unhandled : list error;                 (* rejections no handler caught *)
}.

Definition emit (e : event) (w : World) : World :=
  {| hidden := hidden w; isStopped := isStopped w; intervals := intervals w;
     next_interval := next_interval w; inflight := inflight w;
     next_fetch := next_fetch w; trace := trace w ++ [e];
     unhandled := unhandled w |}.

Definition set_hidden (b : bool) (w : World) : World :=
  {| hidden := b; isStopped := isStopped w; intervals := intervals w;
     next_interval := next_interval w; inflight := inflight w;
     next_fetch := next_fetch w; trace := trace w;
     unhandled := unhandled w |}.

Definition set_isStopped (l : list bool) (w : World) : World :=
  {| hidden := hidden w; isStopped := l; intervals := intervals w;
     next_interval := next_interval w; inflight := inflight w;
     next_fetch := next_fetch w; trace := trace w;
     unhandled := unhandled w |}.

Definition setInterval (hb : heartbeat) (w : World) : World :=
  {| hidden := hidden w; isStopped := isStopped w;
     intervals := <[next_interval w := hb]> (intervals w);
     next_interval := S (next_interval w); inflight := inflight w;
     next_fetch := next_fetch w; trace := trace w;
     unhandled := unhandled w |}.

Definition clearInterval (t : nat) (w : World) : World :=
  {| hidden := hidden w; isStopped := isStopped w;
     intervals := delete t (intervals w);
     next_interval := next_interval w; inflight := inflight w;
     next_fetch := next_fetch w; trace := trace w;
     unhandled := unhandled w |}.

Definition await (next : option next_fn) (w : World) : World :=
  {| hidden := hidden w; isStopped := isStopped w; intervals := intervals w;
     next_interval := next_interval w;
     inflight := <[next_fetch w := next]> (inflight w);
     next_fetch := S (next_fetch w); trace := trace w;
     unhandled := unhandled w |}.

Definition answered (id : nat) (w : World) : World :=
  {| hidden := hidden w; isStopped := isStopped w; intervals := intervals w;
     next_interval := next_interval w; inflight := delete id (inflight w);
     next_fetch := next_fetch w; trace := trace w;
     unhandled := unhandled w |}.

Definition report (e : error) (w : World) : World :=
  {| hidden := hidden w; isStopped := isStopped w; intervals := intervals w;
     next_interval := next_interval w; inflight := inflight w;
     next_fetch := next_fetch w; trace := trace w;
     unhandled := unhandled w ++ [e] |}.

Definition isInBackground (w : World) : bool := hidden w.

(** ** Transport *)

Definition mk_request (url : string) (body : value) (opts : options) : request :=
  {| req_url := url;
     req_method := "POST";
     req_content_type := "application/json;charset=UTF-8";
     req_credentials := if ignoreOwnVisits opts then CredOmit else CredInclude;
     req_body := body |}.

(** The synchronous part of [send]: the one [fetch] call.  The promise
    chain hangs on the request until its response arrives ([settle]). *)
Definition send (url : string) (body : value) (opts : options)
    (next : option next_fn) (w : World) : World :=
  await next (emit (Fetch (mk_request url body opts)) w).

Inductive promise (A : Type) :=
| Fulfilled (a : A)
| Rejected (e : error).
Arguments Fulfilled {A} a.
Arguments Rejected {A} e.

Definition then_ {A B} (p : promise A) (h : A -> World -> World * promise B)
    (w : World) : World * promise B :=
  match p with
  | Fulfilled a => h a w
  | Rejected e => (w, Rejected e)
  end.

Definition catch_ {A} (p : promise A) (h : error -> World -> World * promise A)
    (w : World) : World * promise A :=
  match p with
  | Fulfilled a => (w, Fulfilled a)
  | Rejected e => h e w
  end.

Definition of_result {A} (r : result A) : promise A :=
  match r with
  | Ok a => Fulfilled a
  | Throw e => Rejected e
  end.

(** What the network does with a request: it fails, or it answers with a
    status ([response.ok]) and a body that parses as JSON or does not. *)
Inductive response :=
| NetworkError
| Response (ok : bool) (body : option value).

Definition fetched (r : response) : promise (bool * option value) :=
  match r with
  | NetworkError => Rejected FetchFailed
  | Response ok body => Fulfilled (ok, body)
  end.

Definition unhandledStatus : string := "Server returned with an unhandled status".
Definition ownSite : string := "Tracker ignores you because this is your own site".
Definition onLocalhost : string := "Tracker ignores you because you are on localhost".
Definition aBot : string := "Tracker ignores you because you are a bot".

(** First [then]: the status check and [response.json()]. *)
Definition on_response (r : bool * option value) (w : World) : World * promise value :=
  let '(ok, body) := r in
  if negb ok then (w, Rejected (Error_ (VStr unhandledStatus)))
  else (w, match body with
           | Some json => Fulfilled json
           | None => Rejected SyntaxError
           end).

Definition call_user (f : user_fn) (arg : value) (w : World) : World * promise unit :=
  (emit (Called (fn_tag f) arg) w,
   match fn_body f arg with
   | None => Fulfilled ()
   | Some e => Rejected e
   end).

(** [json.data.<op>.payload.id]. *)
Definition payload_id (op : string) (json : value) : result value :=
  d ← get json "data";
  c ← get d op;
  p ← get c "payload";
  get p "id".

(** Applying [next] to the parsed response. *)
Definition call (f : next_fn) (json : value) (w : World) : World * promise unit :=
  match f with
  | Caller f => call_user f json w
  | RecordCreated cell url opts next =>
      match payload_id "createRecord" json with
      | Throw e => (w, Rejected e)
      | Ok recordId =>
          if isFakeId recordId then (emit (Warn ownSite) w, Fulfilled ())
          else
            let w := setInterval (Heartbeat cell url opts recordId) w in
            match next with
            | Some f => call_user f recordId w
            | None => (w, Fulfilled ())
            end
      end
  | ActionCreated next =>
      match payload_id "createAction" json with
      | Throw e => (w, Rejected e)
      | Ok actionId =>
          if isFakeId actionId then (emit (Warn ownSite) w, Fulfilled ())
          else
            match next with
            | Some f => call_user f actionId w
            | None => (w, Fulfilled ())
            end
      end
  end.

(** Second [then]: the [errors] check and the callback. *)
Definition on_json (next : option next_fn) (json : value) (w : World) : World * promise unit :=
  match get json "errors" with
  | Throw e => (w, Rejected e)
  | Ok errors =>
      if not_nullish errors
      then (w, match e0 ← get0 errors; get e0 "message" with
               | Ok m => Rejected (Error_ m)
               | Throw e => Rejected e
               end)
      else
        match next with
        | Some f => call f json w
        | None => (w, Fulfilled ())
        end
  end.

(** [catch]: [console.error(error)]. *)
Definition on_error (e : error) (w : World) : World * promise unit :=
  (emit (LogError e) w, Fulfilled ()).

(** The chain [fetch(..).then(..).then(..).catch(..)] run on a response;
    the promise returned is the one the chain ends in. *)
Definition respond (next : option next_fn) (r : response) (w : World) : World * promise unit :=
  let '(w1, p1) := then_ (fetched r) on_response w in
  let '(w2, p2) := then_ p1 (on_json next) w1 in
  catch_ p2 on_error w2.

(** The response of request [id] arrives.  A rejection the chain leaves
    unhandled is reported to the page. *)
Definition settle (id : nat) (r : response) (w : World) : World :=
  match inflight w !! id with
  | None => w
  | Some next =>
      let '(w', p) := respond next r (answered id w) in
      match p with
      | Fulfilled _ => w'
      | Rejected e => report e w'
      end
  end.

(** ** Session controller *)

(** What [record] and [updateRecord] return: [{ stop: noop }] or a [stop]
    closing over the [isStopped] of the call. *)
Inductive handle :=
| NoopStop
| Stop (cell : nat).

Definition stop (h : handle) (w : World) : World :=
  match h with
  | NoopStop => w
  | Stop cell => set_isStopped (<[cell := true]> (isStopped w)) w
  end.

(** [let isStopped = false]: a fresh variable, named by its index. *)
Definition new_isStopped (w : World) : nat * World :=
  (length (isStopped w), set_isStopped (isStopped w ++ [false]) w).

(** One firing of the interval [t]; a cleared interval does not fire. *)
Definition tick (t : nat) (w : World) : World :=
  match intervals w !! t with
  | None => w
  | Some (Heartbeat cell url opts recordId) =>
      if bool_decide (isStopped w !! cell = Some true) then clearInterval t w
      else if isInBackground w then w
      else send url (updateRecordBody recordId) opts None w
  end.

Definition _record (env : Env) (url : string) (opts : options)
    (domainId attrs : value) (next : option user_fn) (w : World) : World * handle :=
  let attrs := match attrs with
               | VUndefined => attributes env (detailed opts)
               | _ => attrs
               end in
  let '(cell, w) := new_isStopped w in
  (send url (createRecordBody domainId attrs) opts
     (Some (RecordCreated cell url opts next)) w,
   Stop cell).

Definition _updateRecord (url : string) (opts : options) (recordId : value)
    (w : World) : World * handle :=
  let '(cell, w) := new_isStopped w in
  if isFakeId recordId then (emit (Warn ownSite) w, Stop cell)
  else (setInterval (Heartbeat cell url opts recordId) w, Stop cell).

Definition _action (url : string) (opts : options) (eventId attrs : value)
    (next : option user_fn) (w : World) : World :=
  send url (createActionBody eventId attrs) opts (Some (ActionCreated next)) w.

Definition _updateAction (url : string) (opts : options) (actionId attrs : value)
    (w : World) : World :=
  if isFakeId actionId then emit (Warn ownSite) w
  else send url (updateActionBody actionId attrs) opts None w.

(** The object [create] returns: [fakeInstance], or the four closures over
    [url] and [options]. *)
Inductive instance :=
| fakeInstance
| realInstance (url : string) (opts : options).

Definition create (env : Env) (server : string) (opts : value) (w : World)
    : World * result instance :=
  match validate opts with
  | Throw e => (w, Throw e)
  | Ok options =>
      let url := endpoint server in
      if ignoreLocalhost options && isLocalhost (hostname env)
      then (emit (Warn onLocalhost) w, Ok fakeInstance)
      else if isBot (userAgent env)
      then (emit (Warn aBot) w, Ok fakeInstance)
      else (w, Ok (realInstance url options))
  end.

Definition record (i : instance) (env : Env) (domainId attrs : value)
    (next : option user_fn) (w : World) : World * handle :=
  match i with
  | fakeInstance => (w, NoopStop)
  | realInstance url opts => _record env url opts domainId attrs next w
  end.

Definition updateRecord (i : instance) (recordId : value) (w : World) : World * handle :=
  match i with
  | fakeInstance => (w, NoopStop)
  | realInstance url opts => _updateRecord url opts recordId w
  end.

Definition action (i : instance) (eventId attrs : value) (next : option user_fn)
    (w : World) : World :=
  match i with
  | fakeInstance => w
  | realInstance url opts => _action url opts eventId attrs next w
  end.

Definition updateAction (i : instance) (actionId attrs : value) (w : World) : World :=
  match i with
  | fakeInstance => w
  | realInstance url opts => _updateAction url opts actionId attrs w
  end.

(** ** Runs of the event loop *)

(** What can happen to a page that holds instances: a timer fires, a
    response arrives, the visibility changes, the page calls [stop] or one
    of the four operations. *)
Inductive step_label :=
| ATick (t : nat)
| ASettle (id : nat) (r : response)
| AVisibility (hidden : bool)
| AStop (h : handle)
| ARecord (i : instance) (domainId attrs : value) (next : option user_fn)
| AUpdateRecord (i : instance) (recordId : value)
| AAction (i : instance) (eventId attrs : value) (next : option user_fn)
| AUpdateAction (i : instance) (actionId attrs : value).

Definition step (env : Env) (a : step_label) (w : World) : World :=
  match a with
  | ATick t => tick t w
  | ASettle id r => settle id r w
  | AVisibility b => set_hidden b w
  | AStop h => stop h w
  | ARecord i domainId attrs next => fst (record i env domainId attrs next w)
  | AUpdateRecord i recordId => fst (updateRecord i recordId w)
  | AAction i eventId attrs next => action i eventId attrs next w
  | AUpdateAction i actionId attrs => updateAction i actionId attrs w
  end.

Fixpoint run (env : Env) (acts : list step_label) (w : World) : World :=
  match acts with
  | [] => w
  | a :: rest => run env rest (step env a w)
  end.

(** The page right after the script is loaded. *)
Definition init (hidden : bool) : World :=
  {| hidden := hidden; isStopped := []; intervals := ∅; next_interval := 0;
     inflight := ∅; next_fetch := 0; trace := []; unhandled := [] |}.

Definition reachable (env : Env) (w : World) : Prop :=
  ∃ hidden acts, w = run env acts (init hidden).

Definition is_fetch (e : event) : bool :=
  match e with Fetch _ => true | _ => false end.

(** Number of [fetch] calls so far. *)
Definition fetches (w : World) : nat := length (List.filter is_fetch (trace w)).

(** Does the interval [t] belong to the session whose flag is [cell]? *)
Definition fires_for (cell t : nat) (w : World) : bool :=
  bool_decide (hb_cell <$> intervals w !! t = Some cell).

(** Over a run: how often the heartbeat callback of session [cell] is
    entered, and how many requests those entries send. *)
Fixpoint heartbeat_runs (env : Env) (cell : nat) (acts : list step_label) (w : World) : nat :=
  match acts with
  | [] => 0
  | a :: rest =>
      (match a with
       | ATick t => if fires_for cell t w then 1 else 0
       | _ => 0
       end) + heartbeat_runs env cell rest (step env a w)
  end.

Fixpoint heartbeat_sends (env : Env) (cell : nat) (acts : list step_label) (w : World) : nat :=
  match acts with
  | [] => 0
  | a :: rest =>
      (match a with
       | ATick t => if fires_for cell t w then fetches (tick t w) - fetches w else 0
       | _ => 0
       end) + heartbeat_sends env cell rest (step env a w)
  end.

(** ** Bootstrap from the DOM *)

(** The first element matching [[data-sol-domain-id]], with what
    [getAttribute] returns for the three attributes the script reads
    ([None] for [null]; the selector guarantees the domain id). *)
Record element := {
  data_sol_server : option string;
  data_sol_domain_id : string;
  data_sol_opts : option string;
}.

(** [elem.getAttribute(..) || fallback]: [null] and the empty string are
    falsy. *)
Definition or_default (attribute : option string) (fallback : string) : string :=
  match attribute with
  | None => fallback
  | Some "" => fallback
  | Some s => s
  end.

Section Bootstrap.

(** [JSON.parse], a built-in of the host. *)
Variable JSON_parse : string -> result value.

(** [detect()], on the result of [document.querySelector]. *)
Definition detect (env : Env) (elem : option element) (w : World) : World * result unit :=
  match elem with
  | None => (w, Ok ())
  | Some elem =>
      let server := or_default (data_sol_server elem) "" in
      let domainId := data_sol_domain_id elem in
      let options := or_default (data_sol_opts elem) "{}" in
      match JSON_parse options with
      | Throw e => (w, Throw e)
      | Ok parsed =>
          match create env server parsed w with
          | (w', Throw e) => (w', Throw e)
          | (w', Ok i) => (fst (record i env (VStr domainId) VUndefined None w'), Ok ())
          end
      end
  end.

End Bootstrap.

(** ** Vocabulary of the properties *)

(** The server URL without one trailing slash, if it has one. *)
Fixpoint without_slash (s : string) : string :=
  match s with
  | "" => ""
  | String c rest =>
      match rest with
      | "" => if Ascii.eqb c "/" then "" else String c ""
      | _ => String c (without_slash rest)
      end
  end.

(** A response whose [errors] entry is neither [undefined] nor [null]. *)
Definition has_errors (json errs : value) : Prop :=
  get json "errors" = Ok errs ∧ not_nullish errs = true.

Definition no_errors (json : value) : Prop :=
  ∃ errs, get json "errors" = Ok errs ∧ not_nullish errs = false.

(** The id a clean response returns: successful status, a body that
    parses and has no [errors] entry, and [data.<op>.payload.id] can be
    read. *)
Definition returned_id (op : string) (r : response) : option value :=
  match r with
  | Response true (Some json) =>
      match get json "errors" with
      | Ok errs =>
          if not_nullish errs then None
          else match payload_id op json with
               | Ok id => Some id
               | Throw _ => None
               end
      | Throw _ => None
      end
  | _ => None
  end.

(** The session a request in flight will start a heartbeat for. *)
Definition request_cell (next : option next_fn) : option nat :=
  match next with
  | Some (RecordCreated cell _ _ _) => Some cell
  | _ => None
  end.

(** *** One owner per session *)

(** What every reachable world satisfies, stated on the parts of the
    world it concerns: sessions are named by allocated flags; a session
    has at most one interval or one createRecord request in flight,
    never both; and no interval beats for the sentinel id. *)
Record wf_on (st : list bool) (iv : gmap nat heartbeat)
    (rq : gmap nat (option next_fn)) : Prop := {
  wf_interval_cell : ∀ t hb, iv !! t = Some hb → hb_cell hb < length st;
  wf_request_cell : ∀ id c, rq !! id ≫= request_cell = Some c → c < length st;
  wf_interval_uniq : ∀ t1 t2 hb1 hb2,
    iv !! t1 = Some hb1 → iv !! t2 = Some hb2 → hb_cell hb1 = hb_cell hb2 → t1 = t2;
  wf_request_uniq : ∀ id1 id2 c,
    rq !! id1 ≫= request_cell = Some c → rq !! id2 ≫= request_cell = Some c → id1 = id2;
  wf_one_owner : ∀ t hb id,
    iv !! t = Some hb → rq !! id ≫= request_cell ≠ Some (hb_cell hb);
  wf_not_fake : ∀ t c u o rid,
    iv !! t = Some (Heartbeat c u o rid) → isFakeId rid = false;
}.

Definition wf (w : World) : Prop := wf_on (isStopped w) (intervals w) (inflight w).

(** The flag of session [cell] is set. *)
Definition stopped (cell : nat) (w : World) : Prop := isStopped w !! cell = Some true.

(** No interval and no createRecord request belongs to session [cell]. *)
Definition no_owner (cell : nat) (w : World) : Prop :=
  (∀ t hb, intervals w !! t = Some hb → hb_cell hb ≠ cell) ∧
  (∀ id, inflight w !! id ≫= request_cell ≠ Some cell).

(** *** A concrete page *)

Definition example_page (host agent query : string) : Env :=
  {| hostname := host; search := query;
     href := "https://" +:+ host +:+ "/" +:+ query; referrer := "";
     userAgent := agent; language := "en-US";
     screenWidth := VNum 1280; screenHeight := VNum 800;
     screenColorDepth := VNum 24; platformProduct := VNull;
     platformManufacturer := VNull; platformOsFamily := VStr "Linux";
     platformOsVersion := VNull; platformName := VStr "Firefox";
     platformVersion := VStr "115.0"; outerWidth := VNum 1280;
     outerHeight := VNum 800 |}.

Definition example_env : Env :=
  example_page "example.com" "Mozilla/5.0 Firefox/115.0" "?source=news".

Definition example_options : options :=
  {| detailed := false; ignoreLocalhost := true; ignoreOwnVisits := true |}.

Definition example_url : string := "https://sol.example.com/api".

Definition example_fn : user_fn := {| fn_tag := 1; fn_body := fun _ => None |}.

(** A clean createRecord response that returns [id]. *)
Definition created (id : string) : response :=
  Response true (Some (VObj
    [("data", VObj [("createRecord", VObj [("payload", VObj [("id", VStr id)])])])])).

(** The page has called [record] and awaits the response. *)
Definition example_pending : World :=
  run example_env
    [ARecord (realInstance example_url example_options) (VStr "domain") VUndefined
       (Some example_fn)]
    (init false).

(** The response has arrived, with a normal id. *)
Definition example_active : World :=
  run example_env [ASettle 0 (created "5f3c")] example_pending.

(** *** Pieces of a string *)

(** The text before the first occurrence of [sep], or all of [s]. *)
Fixpoint first_piece (sep s : string) : string :=
  match s with
  | "" => ""
  | String c rest =>
      if String.prefix sep s then "" else String c (first_piece sep rest)
  end.

Definition non_empty (s : string) : option string :=
  if String.eqb s "" then None else Some s.

Definition bot_words : list string := ["bot"; "crawler"; "spider"; "crawling"].

(** *** Kinds of steps *)

(** A response that passes both checks of [send]. *)
Definition clean (r : response) : Prop :=
  ∃ json, r = Response true (Some json) ∧ no_errors json.

(** Steps the page itself does not initiate while it stays hidden: timers,
    responses, [stop], and becoming hidden. *)
Definition passive (a : step_label) : bool :=
  match a with
  | ATick _ | ASettle _ _ | AStop _ => true
  | AVisibility hidden => hidden
  | _ => false
  end.

Definition is_fake (i : instance) : bool :=
  match i with
  | fakeInstance => true
  | realInstance _ _ => false
  end.

(** Steps of a page that holds fake instances only. *)
Definition on_fake (a : step_label) : bool :=
  match a with
  | ARecord i _ _ _ | AUpdateRecord i _ | AAction i _ _ _ | AUpdateAction i _ _ => is_fake i
  | _ => true
  end.

(** A stand-in for [JSON.parse] that knows the two texts of the examples. *)
Definition example_parse (text : string) : result value :=
  if String.eqb text "{}" then Ok (VObj [])
  else if String.eqb text "null" then Ok VNull
  else Throw SyntaxError.

Definition example_element : element :=
  {| data_sol_server := Some "https://sol.example.com";
     data_sol_domain_id := "hd11f820-68a1-11e6-8047-79c0c2d9bce0";
     data_sol_opts := None |}.

(** * Properties *)

(** ** The string helpers on the inputs the script meets *)

Example split_source :
  split "source=" "?a=1&source=news&b=2" = ["?a=1&"; "news&b=2"] ∧
  split "&" "news&b=2" = ["news"; "b=2"] ∧
  split "source=" "?a=1" = ["?a=1"] ∧
  split "&" "" = [""].
Proof. repeat split. Qed.

Example source_examples :
  source "?a=1&source=news&b=2" = Some "news" ∧
  source "?a=1" = None ∧
  source "" = None ∧
  source "?source=" = None.
Proof. repeat split. Qed.

Example classifier_examples :
  isLocalhost "" = true ∧ isLocalhost "localhost" = true ∧
  isLocalhost "127.0.0.1" = true ∧ isLocalhost "::1" = true ∧
  isLocalhost "example.com" = false ∧ isLocalhost "127.0.0.2" = false ∧
  isBot "Googlebot/2.1" = true ∧ isBot "Mozilla Spider" = true ∧
  isBot "SomeCrawler/1.0" = true ∧
  isBot "Mozilla/5.0 (X11; Linux x86_64; rv:115.0) Gecko/20100101 Firefox/115.0" = false ∧
  isFakeId (VStr "88888888-8888-8888-8888-888888888888") = true ∧
  isFakeId (VStr "88888888-8888-8888-8888-888888888889") = false ∧
  isFakeId VUndefined = false.
Proof. repeat split. Qed.

(** ** Endpoint construction *)

Lemma substr_last_cons c d s :
  substr_last (String c (String d s)) = substr_last (String d s).
Proof. reflexivity. Qed.

Lemma without_slash_cons c d s :
  without_slash (String c (String d s)) = String c (without_slash (String d s)).
Proof. reflexivity. Qed.

Lemma app_slash_cons s : ∃ d s', s +:+ "/" = String d s'.
Proof. destruct s; simpl; eauto. Qed.

Lemma substr_last_slash s : substr_last (s +:+ "/") = "/".
Proof.
  induction s as [|c s IH]; [reflexivity|].
  destruct (app_slash_cons s) as (d & s' & E).
  change (String c s +:+ "/") with (String c (s +:+ "/")).
  rewrite E in *. by rewrite substr_last_cons.
Qed.

Lemma without_slash_app s : without_slash (s +:+ "/") = s.
Proof.
  induction s as [|c s IH]; [reflexivity|].
  destruct (app_slash_cons s) as (d & s' & E).
  change (String c s +:+ "/") with (String c (s +:+ "/")).
  rewrite E in *. by rewrite without_slash_cons, IH.
Qed.

Lemma no_slash_keeps s :
  String.eqb (substr_last s) "/" = false → without_slash s = s.
Proof.
  induction s as [|c [|d s] IH]; [reflexivity| |]; intros H.
  - simpl in *. by destruct (Ascii.eqb c "/").
  - rewrite substr_last_cons in H. by rewrite without_slash_cons, IH.
Qed.

Lemma slash_splits s :
  String.eqb (substr_last s) "/" = true → s = without_slash s +:+ "/".
Proof.
  induction s as [|c [|d s] IH]; [discriminate| |]; intros H.
  - simpl in *. destruct (Ascii.eqb_spec c "/") as [->|]; [reflexivity|discriminate].
  - rewrite substr_last_cons in H. rewrite without_slash_cons.
    change (String c (String d s) = String c (without_slash (String d s) +:+ "/")).
    f_equal. exact (IH H).
Qed.

Lemma app_assoc_str (a b c : string) : (a +:+ b) +:+ c = a +:+ (b +:+ c).
Proof.
  induction a as [|x a IH]; [reflexivity|].
  change (String x ((a +:+ b) +:+ c) = String x (a +:+ (b +:+ c))).
  by rewrite IH.
Qed.

(** C8: whether or not the server URL ends in a slash, the endpoint is the
    URL without that slash followed by [/api]; in particular a URL and the
    same URL with a slash appended give the same endpoint, as the two
    documented examples do. *)
Theorem endpoint_one_slash :
  (∀ server, endpoint server = without_slash server +:+ "/api") ∧
  (∀ server, endpoint (server +:+ "/") = server +:+ "/api") ∧
  endpoint "https://sol.example.com" = "https://sol.example.com/api" ∧
  endpoint "https://sol.example.com/" = "https://sol.example.com/api".
Proof.
  assert (H : ∀ server, endpoint server = without_slash server +:+ "/api").
  { intros s. unfold endpoint.
    destruct (String.eqb (substr_last s) "/") eqn:E.
    - rewrite (slash_splits s E) at 1. by rewrite app_assoc_str.
    - by rewrite (no_slash_keeps s E). }
  split; [exact H|]. split; [|split; reflexivity].
  intros s. by rewrite H, without_slash_app.
Qed.

(** ** Option validation *)

(** On every input but [null], [validate] returns, and each field is the
    default unless the input holds the opposite boolean. *)
Lemma validate_not_null (v : value) :
  v ≠ VNull →
  ∃ o, validate v = Ok o ∧
    (detailed o = true ↔ get v "detailed" = Ok (VBool true)) ∧
    (ignoreLocalhost o = false ↔ get v "ignoreLocalhost" = Ok (VBool false)) ∧
    (ignoreOwnVisits o = false ↔ get v "ignoreOwnVisits" = Ok (VBool false)).
Proof.
  intros Hn. destruct v; try congruence; cbn.
  1-5: eexists; split; [reflexivity|]; cbn; repeat split; intros; congruence.
  eexists; split; [reflexivity|]; cbn.
  repeat split; intros H.
  - destruct (default _ _) as [| |[]| | | |]; cbn in H; congruence.
  - injection H as ->. reflexivity.
  - destruct (default _ _) as [| |[]| | | |]; cbn in H; congruence.
  - injection H as ->. reflexivity.
  - destruct (default _ _) as [| |[]| | | |]; cbn in H; congruence.
  - injection H as ->. reflexivity.
Qed.

(** C7: [validate] gives the documented record when called without an
    argument and on the documented partial input, but on [null] (which the
    default parameter does not replace) reading [options.detailed] raises
    a [TypeError]. *)
Theorem validate_null_throws :
  validate VNull = Throw TypeError ∧
  validate VUndefined
    = Ok {| detailed := false; ignoreLocalhost := true; ignoreOwnVisits := true |} ∧
  validate (VObj [("detailed", VBool true); ("ignoreLocalhost", VBool false)])
    = Ok {| detailed := true; ignoreLocalhost := false; ignoreOwnVisits := true |}.
Proof. repeat split. Qed.

(** ** The [source] attribute *)

(** C6: on [?resource=a&source=b] the collector reports [a], the text that
    follows the first [source=] anywhere in the query string, while the
    parameter named [source] has the value [b]; both agree on a query
    whose first [source=] starts a parameter. *)
Theorem source_is_substring_match :
  source "?resource=a&source=b" = Some "a" ∧
  source_parameter "?resource=a&source=b" = Some "b" ∧
  get (attributes (example_page "example.com" "Mozilla/5.0" "?resource=a&source=b") false)
      "source" = Ok (VStr "a") ∧
  source "?a=1&source=x&source=y" = source_parameter "?a=1&source=x&source=y" ∧
  source "?source=&a=1" = None.
Proof. repeat split. Qed.

(** ** Credentials *)

(** C5: the one request [send] issues omits credentials exactly when
    [ignoreOwnVisits] is true, and includes them exactly when it is
    false. *)
Theorem send_credentials url body opts next w :
  ∃ r, trace (send url body opts next w) = trace w ++ [Fetch r] ∧
       req_url r = url ∧ req_body r = body ∧
       (req_credentials r = CredOmit ↔ ignoreOwnVisits opts = true) ∧
       (req_credentials r = CredInclude ↔ ignoreOwnVisits opts = false).
Proof.
  exists (mk_request url body opts). cbn.
  repeat split; destruct (ignoreOwnVisits opts); cbn; congruence.
Qed.

(** ** The gate of [create] *)

(** Once the options validate, if [ignoreLocalhost] holds on a localhost,
    or the user agent is a bot, [create] logs one warning that names the
    reason and returns the fake instance; none of its four operations
    changes the world (so nothing is sent), and the [stop] of a handle it
    returns changes nothing either. *)
Theorem create_gate env server opts o w :
  validate opts = Ok o →
  (ignoreLocalhost o = true ∧ isLocalhost (hostname env) = true)
    ∨ isBot (userAgent env) = true →
  create env server opts w
    = (emit (Warn (if ignoreLocalhost o && isLocalhost (hostname env)
                   then onLocalhost else aBot)) w,
       Ok fakeInstance) ∧
  ∀ w' d a n,
    record fakeInstance env d a n w' = (w', NoopStop) ∧
    updateRecord fakeInstance d w' = (w', NoopStop) ∧
    action fakeInstance d a n w' = w' ∧
    updateAction fakeInstance d a w' = w' ∧
    fetches (fst (record fakeInstance env d a n w')) = fetches w' ∧
    stop (snd (record fakeInstance env d a n w')) w' = w' ∧
    stop (snd (updateRecord fakeInstance d w')) w' = w'.
Proof.
  intros Hv Hgate. split; [|by intros].
  unfold create. rewrite Hv.
  destruct Hgate as [[-> ->]|Hbot]; [reflexivity|].
  rewrite Hbot. by destruct (ignoreLocalhost o && isLocalhost (hostname env)).
Qed.

(** C3: with [null] as options [create] never reaches its gate: whatever
    the page, [validate] throws a [TypeError] first, so on a localhost and
    for a bot no warning is logged and no fake instance is returned.  On
    the same page, options left out give the warning and the fake
    instance. *)
Theorem create_gate_null_options :
  (∀ env server w, create env server VNull w = (w, Throw TypeError)) ∧
  isLocalhost (hostname (example_page "localhost" "Googlebot/2.1" "")) = true ∧
  isBot (userAgent (example_page "localhost" "Googlebot/2.1" "")) = true ∧
  create (example_page "localhost" "Googlebot/2.1" "") "https://sol.example.com"
    VNull (init false)
    = (init false, Throw TypeError) ∧
  create (example_page "example.com" "Googlebot/2.1" "") "https://sol.example.com"
    VNull (init false)
    = (init false, Throw TypeError) ∧
  create (example_page "localhost" "Googlebot/2.1" "") "https://sol.example.com"
    VUndefined (init false)
    = (emit (Warn onLocalhost) (init false), Ok fakeInstance) ∧
  create (example_page "example.com" "Googlebot/2.1" "") "https://sol.example.com"
    VUndefined (init false)
    = (emit (Warn aBot) (init false), Ok fakeInstance).
Proof. repeat split. Qed.

(** ** The boundary of [send] *)

Lemma fetches_emit e w :
  fetches (emit e w) = (if is_fetch e then S (fetches w) else fetches w).
Proof.
  unfold fetches, emit; cbn [trace]. rewrite List.filter_app, length_app.
  destruct e; cbn; lia.
Qed.

Lemma call_user_fetches f v w : fetches (fst (call_user f v w)) = fetches w.
Proof. unfold call_user; cbn [fst]. by rewrite fetches_emit. Qed.

Lemma call_fetches f json w : fetches (fst (call f json w)) = fetches w.
Proof.
  destruct f as [f|cell url opts [n|]|[n|]]; cbn [call].
  - apply call_user_fetches.
  - destruct (payload_id _ _); [|done]. destruct (isFakeId _); cbn [fst].
    + by rewrite fetches_emit.
    + by rewrite call_user_fetches.
  - destruct (payload_id _ _); [|done]. destruct (isFakeId _); cbn [fst]; [|done].
    by rewrite fetches_emit.
  - destruct (payload_id _ _); [|done]. destruct (isFakeId _); cbn [fst].
    + by rewrite fetches_emit.
    + by rewrite call_user_fetches.
  - destruct (payload_id _ _); [|done]. destruct (isFakeId _); cbn [fst]; [|done].
    by rewrite fetches_emit.
Qed.

Lemma on_json_fetches next json w : fetches (fst (on_json next json w)) = fetches w.
Proof.
  unfold on_json. destruct (get json "errors"); [|done].
  destruct (not_nullish _); [done|]. destruct next; [|done]. apply call_fetches.
Qed.

(** The chain answers no response with a further request, and the promise
    it ends in is fulfilled. *)
Lemma respond_fetches next r w : fetches (fst (respond next r w)) = fetches w.
Proof.
  unfold respond.
  destruct r as [|[] [json|]]; cbn; try exact (fetches_emit (LogError _) w).
  pose proof (on_json_fetches next json w) as H.
  destruct (on_json next json w) as [w2 [[]|e]]; cbn [fst catch_ on_error] in *; [done|].
  by rewrite fetches_emit.
Qed.

Lemma respond_fulfilled next r w : snd (respond next r w) = Fulfilled ().
Proof.
  unfold respond. destruct r as [|[] [json|]]; cbn; try done.
  by destruct (on_json next json w) as [w2 [[]|e]].
Qed.

Lemma respond_unhandled next r w : unhandled (fst (respond next r w)) = unhandled w.
Proof.
  unfold respond. destruct r as [|[] [json|]]; cbn; try done.
  unfold on_json. destruct (get json "errors") as [errs|]; [|done].
  destruct (not_nullish errs).
  { by destruct (mbind _ _). }
  destruct next as [[f|cell u o [n|]|[n|]]|]; cbn; try done.
  - by destruct (fn_body f json).
  - destruct (payload_id _ _) as [id|]; [|done]. destruct (isFakeId id); [done|].
    cbn. by destruct (fn_body n id).
  - destruct (payload_id _ _) as [id|]; [|done]. by destruct (isFakeId id).
  - destruct (payload_id _ _) as [id|]; [|done]. destruct (isFakeId id); [done|].
    cbn. by destruct (fn_body n id).
  - destruct (payload_id _ _) as [id|]; [|done]. by destruct (isFakeId id).
Qed.

Lemma settle_inflight id next r w :
  inflight w !! id = Some next →
  settle id r w = fst (respond next r (answered id w)).
Proof.
  intros H. unfold settle. rewrite H.
  pose proof (respond_fulfilled next r (answered id w)) as Hp.
  destruct (respond next r (answered id w)) as [w' p]; cbn in *. by subst.
Qed.

Lemma send_inflight url body opts next w :
  inflight (send url body opts next w) !! next_fetch w = Some next.
Proof. unfold send, await; cbn. apply lookup_insert_eq. Qed.

(** C4: a call of [send] issues exactly one request.  Whatever the
    response, no further request follows and no rejection is left
    unhandled.  A non-success status is logged as one error; so is an
    [errors] entry in the body, with the message of the first error when
    the list has one.  A callback is called, with the parsed body, exactly
    on a successful status whose body has no [errors] entry. *)
Theorem send_boundary url body opts next w r :
  let w1 := send url body opts next w in
  let w2 := settle (next_fetch w) r w1 in
  trace w1 = trace w ++ [Fetch (mk_request url body opts)] ∧
  fetches w1 = S (fetches w) ∧
  fetches w2 = fetches w1 ∧
  unhandled w2 = unhandled w ∧
  (∀ b, r = Response false b →
     trace w2 = trace w1 ++ [LogError (Error_ (VStr unhandledStatus))]) ∧
  (∀ json errs, r = Response true (Some json) → has_errors json errs →
     (∃ e, trace w2 = trace w1 ++ [LogError e]) ∧
     ∀ e0 rest m, errs = VArr (e0 :: rest) → get e0 "message" = Ok m →
       trace w2 = trace w1 ++ [LogError (Error_ m)]) ∧
  (∀ f, next = Some (Caller f) →
     (∀ json, r = Response true (Some json) → no_errors json →
        trace w2 = trace w1 ++ Called (fn_tag f) json ::
                     match fn_body f json with
                     | Some e => [LogError e]
                     | None => []
                     end) ∧
     (∀ v, Called (fn_tag f) v ∈ drop (length (trace w1)) (trace w2) →
        r = Response true (Some v) ∧ no_errors v)).
Proof.
  intros w1 w2.
  assert (Hw2 : w2 = fst (respond next r (answered (next_fetch w) w1))).
  { apply settle_inflight, send_inflight. }
  assert (H1 : fetches w1 = S (fetches w)).
  { unfold w1, send, await, fetches; cbn [trace emit].
    rewrite List.filter_app, length_app. cbn. lia. }
  split; [done|]. split; [done|]. split.
  { rewrite Hw2, respond_fetches. done. }
  split.
  { rewrite Hw2. by rewrite respond_unhandled. }
  split.
  { intros b ->. rewrite Hw2. reflexivity. }
  split.
  { intros json errs -> [He Hn]. rewrite Hw2. unfold respond; cbn.
    unfold on_json. rewrite He, Hn. split.
    - destruct (mbind _ _); cbn; eauto.
    - intros e0 rest m -> Hm. cbn. rewrite Hm. reflexivity. }
  intros f ->. split.
  - intros json -> (errs & He & Hn). rewrite Hw2. unfold respond; cbn.
    unfold on_json. rewrite He, Hn. cbn.
    destruct (fn_body f json); cbn; [|done]. by rewrite <- app_assoc.
  - intros v. rewrite Hw2. unfold respond.
    destruct r as [|[] [json|]]; cbn.
    1,3-5: rewrite drop_app_length; intros Hin;
      apply list_elem_of_singleton in Hin; discriminate.
    unfold on_json. destruct (get json "errors") as [errs|] eqn:He; cbn.
    2: { rewrite drop_app_length. intros Hin.
         apply list_elem_of_singleton in Hin; discriminate. }
    destruct (not_nullish errs) eqn:Hn.
    { destruct (mbind _ _); cbn; rewrite drop_app_length; intros Hin;
        apply list_elem_of_singleton in Hin; discriminate. }
    cbn. destruct (fn_body f json); cbn.
    + rewrite <- app_assoc. rewrite drop_app_length. cbn. intros Hin.
      apply elem_of_cons in Hin as [Hin|Hin].
      * injection Hin as ->. split; [done|]. by exists errs.
      * apply list_elem_of_singleton in Hin; discriminate.
    + rewrite drop_app_length. intros Hin.
      apply list_elem_of_singleton in Hin. injection Hin as ->.
      split; [done|]. by exists errs.
Qed.

Lemma settle_unhandled id r w : unhandled (settle id r w) = unhandled w.
Proof.
  destruct (inflight w !! id) as [next|] eqn:E.
  - by rewrite (settle_inflight _ _ _ _ E), respond_unhandled.
  - unfold settle. by rewrite E.
Qed.

Lemma tick_unhandled t w : unhandled (tick t w) = unhandled w.
Proof.
  unfold tick. destruct (intervals w !! t) as [[c u o rid]|]; [|done].
  case_bool_decide; [done|]. by destruct (isInBackground w).
Qed.

Lemma step_unhandled env a w : unhandled (step env a w) = unhandled w.
Proof.
  destruct a as [t|id r|b|[|c]|[|u o] d at' n|[|u o] rid|[|u o] e at' n|[|u o] aid at'];
    cbn; try done.
  - apply tick_unhandled.
  - apply settle_unhandled.
  - unfold _updateRecord; cbn. by destruct (isFakeId rid).
  - unfold _updateAction. by destruct (isFakeId aid).
Qed.

Lemma run_unhandled env acts w : unhandled (run env acts w) = unhandled w.
Proof.
  revert w. induction acts as [|a acts IH]; intros w; [done|].
  cbn. by rewrite IH, step_unhandled.
Qed.

(** C10: whatever the response and whatever [next] is or does, the promise
    the chain of [send] ends in is fulfilled, so nothing is left unhandled;
    an error thrown by the callback is logged after the call.  Over any
    run of the page no rejection is ever reported as unhandled. *)
Theorem send_catches_callback url body opts next w r :
  let w1 := send url body opts next w in
  let w2 := settle (next_fetch w) r w1 in
  snd (respond next r (answered (next_fetch w) w1)) = Fulfilled () ∧
  unhandled w2 = unhandled w ∧
  (∀ f json e, next = Some (Caller f) → r = Response true (Some json) →
     no_errors json → fn_body f json = Some e →
     trace w2 = trace w1 ++ [Called (fn_tag f) json; LogError e]) ∧
  (∀ env acts, unhandled (run env acts w) = unhandled w).
Proof.
  intros w1 w2. split; [apply respond_fulfilled|].
  split; [unfold w2; by rewrite settle_unhandled|].
  split; [|intros; apply run_unhandled].
  intros f json e -> -> (errs & He & Hn) Hf.
  unfold w2, w1. rewrite (settle_inflight _ _ _ _ (send_inflight _ _ _ _ _)).
  unfold respond; cbn. unfold on_json. rewrite He, Hn. cbn. rewrite Hf. cbn.
  by rewrite <- app_assoc.
Qed.

(** ** The callback of [record] *)

Lemma _record_inflight env url opts d a n w :
  inflight (fst (_record env url opts d a n w)) !! next_fetch w
    = Some (Some (RecordCreated (length (isStopped w)) url opts n)) ∧
  snd (_record env url opts d a n w) = Stop (length (isStopped w)).
Proof. split; [|done]. unfold _record; cbn. apply lookup_insert_eq. Qed.

(** C9: when the response to the createRecord request of a [record] call
    arrives, the callback given to [record] is called with [v] if and only
    if the response is clean, returns the id [v], and [v] is not the
    sentinel. *)
Theorem record_callback_iff w id cell url opts n r :
  inflight w !! id = Some (Some (RecordCreated cell url opts (Some n))) →
  ∃ delta, trace (settle id r w) = trace w ++ delta ∧
    (∀ v, Called (fn_tag n) v ∈ delta ↔
            returned_id "createRecord" r = Some v ∧ isFakeId v = false) ∧
    (returned_id "createRecord" r = Some (VStr fakeId) →
       delta = [Warn ownSite]) ∧
    ∀ env d a w0,
      inflight (fst (_record env url opts d a (Some n) w0)) !! next_fetch w0
        = Some (Some (RecordCreated (length (isStopped w0)) url opts (Some n))).
Proof.
  intros Hin.
  cut (∃ delta, trace (settle id r w) = trace w ++ delta ∧
         (∀ v, Called (fn_tag n) v ∈ delta ↔
                 returned_id "createRecord" r = Some v ∧ isFakeId v = false) ∧
         (returned_id "createRecord" r = Some (VStr fakeId) → delta = [Warn ownSite])).
  { intros (delta & ? & ? & ?). exists delta. split; [done|]. split; [done|].
    split; [done|]. intros. apply _record_inflight. }
  rewrite (settle_inflight _ _ _ _ Hin).
  assert (Hno : ∀ e v, Called (fn_tag n) v ∈ [LogError e] ↔ False).
  { intros e v. split; [|done]. intros H.
    apply list_elem_of_singleton in H. discriminate. }
  assert (Hnone : ∀ e, ∀ v, Called (fn_tag n) v ∈ [LogError e] ↔
                              None = Some v ∧ isFakeId v = false).
  { intros e v. rewrite Hno. split; [done|]. by intros [[=] _]. }
  unfold respond, returned_id.
  destruct r as [|[] [json|]]; cbn.
  1,3-5: eexists; split; [reflexivity|]; split; [apply Hnone|done].
  unfold on_json. destruct (get json "errors") as [errs|]; cbn.
  2: { eexists; split; [reflexivity|]; split; [apply Hnone|done]. }
  destruct (not_nullish errs).
  { destruct (mbind _ _); cbn; eexists; (split; [reflexivity|]);
      (split; [apply Hnone|done]). }
  cbn. destruct (payload_id "createRecord" json) as [rid|]; cbn.
  2: { eexists; split; [reflexivity|]; split; [apply Hnone|done]. }
  destruct (isFakeId rid) eqn:Hfake; cbn.
  - eexists; split; [reflexivity|]. split; [|done].
    intros v. split.
    + intros H. apply list_elem_of_singleton in H. discriminate.
    + intros [[= ->] ?]. congruence.
  - assert (Hiff : ∀ v, Called (fn_tag n) v = Called (fn_tag n) rid ↔
                          Some rid = Some v ∧ isFakeId v = false).
    { intros v. split; [intros [= ->]; by split | by intros [[= ->] _]]. }
    destruct (fn_body n rid); cbn.
    + exists [Called (fn_tag n) rid; LogError e]. split; [by rewrite <- app_assoc|].
      split.
      * intros v. rewrite elem_of_cons, Hno, <- Hiff. tauto.
      * intros [= ->]. discriminate.
    + exists [Called (fn_tag n) rid]. split; [done|].
      split.
      * intros v. rewrite list_elem_of_singleton. apply Hiff.
      * intros [= ->]. discriminate.
Qed.

(** ** One owner per session *)

Section Invariant.

Lemma wf_on_empty : wf_on [] ∅ ∅.
Proof. split; intros *; rewrite ?lookup_empty; done. Qed.

Lemma wf_on_stop st iv rq c : wf_on st iv rq → wf_on (<[c := true]> st) iv rq.
Proof. intros []; split; intros *; rewrite ?length_insert; eauto. Qed.

Lemma wf_on_clear st iv rq t : wf_on st iv rq → wf_on st (delete t iv) rq.
Proof.
  intros []; split.
  - intros t1 hb [_ Hl]%lookup_delete_Some. eauto.
  - eauto.
  - intros t1 t2 hb1 hb2 [_ Hl1]%lookup_delete_Some [_ Hl2]%lookup_delete_Some. eauto.
  - eauto.
  - intros t1 hb id [_ Hl]%lookup_delete_Some. eauto.
  - intros t1 c u o rid [_ Hl]%lookup_delete_Some. eauto.
Qed.

Lemma request_delete (rq : gmap nat (option next_fn)) id id' c :
  delete id rq !! id' ≫= request_cell = Some c →
  id ≠ id' ∧ rq !! id' ≫= request_cell = Some c.
Proof.
  rewrite lookup_delete. destruct (decide (id = id')) as [->|Hne]; [done|]. done.
Qed.

Lemma request_insert (rq : gmap nat (option next_fn)) id next id' c :
  <[id := next]> rq !! id' ≫= request_cell = Some c →
  (id = id' ∧ request_cell next = Some c) ∨
  (id ≠ id' ∧ rq !! id' ≫= request_cell = Some c).
Proof.
  rewrite lookup_insert. destruct (decide (id = id')) as [->|Hne]; [by left|by right].
Qed.

Lemma wf_on_answered st iv rq id : wf_on st iv rq → wf_on st iv (delete id rq).
Proof.
  intros []; split.
  - eauto.
  - intros id' c [_ Hl]%request_delete. eauto.
  - eauto.
  - intros id1 id2 c [_ Hl1]%request_delete [_ Hl2]%request_delete. eauto.
  - intros t hb id' Hl [_ Hr]%request_delete. by eapply wf_one_owner0.
  - eauto.
Qed.

(** A request that starts no session ([send] without [next], or from
    [action]). *)
Lemma wf_on_await st iv rq id next :
  request_cell next = None → wf_on st iv rq → wf_on st iv (<[id := next]> rq).
Proof.
  intros Hn []; split.
  - eauto.
  - intros id' c [[_ Hl]|[_ Hl]]%request_insert; [congruence|eauto].
  - eauto.
  - intros id1 id2 c [[_ Hl1]|[_ Hl1]]%request_insert; [congruence|].
    intros [[_ Hl2]|[_ Hl2]]%request_insert; [congruence|eauto].
  - intros t hb id' Hl [[_ Hr]|[_ Hr]]%request_insert; [congruence|].
    by eapply wf_one_owner0.
  - eauto.
Qed.

(** [_record]: a fresh flag and the createRecord request for it. *)
Lemma wf_on_record st iv rq id u o n :
  wf_on st iv rq →
  wf_on (st ++ [false]) iv (<[id := Some (RecordCreated (length st) u o n)]> rq).
Proof.
  intros []; split.
  - intros t hb Hl%wf_interval_cell0. rewrite length_app. lia.
  - intros id' c [[_ Hl]|[_ Hl%wf_request_cell0]]%request_insert;
      rewrite length_app; cbn in *; [injection Hl as <-|]; lia.
  - eauto.
  - intros id1 id2 c [[<- Hl1]|[Hn1 Hl1]]%request_insert
                     [[<- Hl2]|[Hn2 Hl2]]%request_insert; cbn in *.
    + done.
    + injection Hl1 as <-. apply wf_request_cell0 in Hl2. lia.
    + injection Hl2 as <-. apply wf_request_cell0 in Hl1. lia.
    + eauto.
  - intros t hb id' Hl [[_ Hr]|[_ Hr]]%request_insert; cbn in *.
    + injection Hr as Hr. apply wf_interval_cell0 in Hl. lia.
    + by eapply wf_one_owner0.
  - eauto.
Qed.

(** [_updateRecord]: a fresh flag, and an interval for it. *)
Lemma wf_on_fresh_flag st iv rq : wf_on st iv rq → wf_on (st ++ [false]) iv rq.
Proof.
  intros []; split; eauto.
  - intros t hb Hl%wf_interval_cell0. rewrite length_app. lia.
  - intros id c Hl%wf_request_cell0. rewrite length_app. lia.
Qed.

Lemma wf_on_updateRecord st iv rq t u o rid :
  isFakeId rid = false →
  wf_on st iv rq →
  wf_on (st ++ [false]) (<[t := Heartbeat (length st) u o rid]> iv) rq.
Proof.
  intros Hf []; split.
  - intros t1 hb [[_ <-]|[_ Hl%wf_interval_cell0]]%lookup_insert_Some;
      rewrite length_app; cbn; lia.
  - intros id c Hl%wf_request_cell0. rewrite length_app. lia.
  - intros t1 t2 hb1 hb2 [[<- <-]|[Hn1 Hl1]]%lookup_insert_Some
                         [[<- <-]|[Hn2 Hl2]]%lookup_insert_Some E; cbn in *.
    + done.
    + apply wf_interval_cell0 in Hl2. lia.
    + apply wf_interval_cell0 in Hl1. lia.
    + eauto.
  - eauto.
  - intros t1 hb id [[_ <-]|[_ Hl]]%lookup_insert_Some Hr; cbn in *.
    + apply wf_request_cell0 in Hr. lia.
    + by eapply wf_one_owner0.
  - intros t1 c u1 o1 rid1 [[_ [= <- <- <- <-]]|[_ Hl]]%lookup_insert_Some; eauto.
Qed.

(** The callback of [_record] on a clean response: the request is gone
    and its session gets its interval. *)
Lemma wf_on_created st iv rq id t c u o n u' o' rid :
  isFakeId rid = false →
  rq !! id = Some (Some (RecordCreated c u o n)) →
  wf_on st iv rq →
  wf_on st (<[t := Heartbeat c u' o' rid]> iv) (delete id rq).
Proof.
  intros Hf Hid Hwf.
  assert (Hc : rq !! id ≫= request_cell = Some c) by (by rewrite Hid).
  destruct Hwf; split.
  - intros t1 hb [[_ <-]|[_ Hl]]%lookup_insert_Some; cbn; eauto.
  - intros id' c' [_ Hl]%request_delete. eauto.
  - intros t1 t2 hb1 hb2 [[<- <-]|[Hn1 Hl1]]%lookup_insert_Some
                         [[<- <-]|[Hn2 Hl2]]%lookup_insert_Some E; cbn in *.
    + done.
    + exfalso. apply (wf_one_owner0 _ _ id Hl2). by rewrite <- E.
    + exfalso. apply (wf_one_owner0 _ _ id Hl1). by rewrite E.
    + eauto.
  - intros id1 id2 c' [_ Hl1]%request_delete [_ Hl2]%request_delete. eauto.
  - intros t1 hb id' [[_ <-]|[_ Hl]]%lookup_insert_Some [Hn Hr]%request_delete; cbn in *.
    + apply Hn. eauto.
    + by eapply wf_one_owner0.
  - intros t1 c1 u1 o1 rid1 [[_ [= <- <- <- <-]]|[_ Hl]]%lookup_insert_Some; eauto.
Qed.

End Invariant.

(** What a response changes besides the trace: nothing, or it adds the
    interval of the session whose createRecord request it answers. *)
Lemma respond_cases next r w :
  isStopped (fst (respond next r w)) = isStopped w ∧
  inflight (fst (respond next r w)) = inflight w ∧
  hidden (fst (respond next r w)) = hidden w ∧
  (intervals (fst (respond next r w)) = intervals w ∨
   ∃ c u o n rid,
     next = Some (RecordCreated c u o n) ∧ isFakeId rid = false ∧
     intervals (fst (respond next r w))
       = <[next_interval w := Heartbeat c u o rid]> (intervals w)).
Proof.
  unfold respond. destruct r as [|[] [json|]]; cbn; try by auto.
  unfold on_json. destruct (get json "errors") as [errs|]; [|by auto].
  destruct (not_nullish errs).
  { destruct (mbind _ _); by auto. }
  destruct next as [[f|cell u o n|[n|]]|]; cbn; try by auto.
  - destruct (fn_body f json); by auto.
  - destruct (payload_id _ _) as [id|]; [|by auto].
    destruct (isFakeId id) eqn:Hf; [by auto|].
    assert (Hr : ∃ c u0 o0 n0 rid,
               Some (RecordCreated cell u o n) = Some (RecordCreated c u0 o0 n0) ∧
               isFakeId rid = false ∧
               <[next_interval w := Heartbeat cell u o id]> (intervals w)
                 = <[next_interval w := Heartbeat c u0 o0 rid]> (intervals w)).
    { by exists cell, u, o, n, id. }
    destruct n as [n|]; cbn; [destruct (fn_body n id); cbn|]; auto.
  - destruct (payload_id _ _) as [id|]; [|by auto].
    destruct (isFakeId id); [by auto|]. cbn. destruct (fn_body n id); by auto.
  - destruct (payload_id _ _) as [id|]; [|by auto]. destruct (isFakeId id); by auto.
Qed.

Lemma wf_init h : wf (init h).
Proof. apply wf_on_empty. Qed.

Lemma wf_settle id r w : wf w → wf (settle id r w).
Proof.
  intros Hwf. destruct (inflight w !! id) as [next|] eqn:E.
  2: { unfold settle. by rewrite E. }
  rewrite (settle_inflight _ _ _ _ E).
  destruct (respond_cases next r (answered id w)) as (Hs & Hi & _ & Hiv).
  unfold wf. rewrite Hs, Hi. cbn [answered isStopped inflight].
  destruct Hiv as [->|(c & u & o & n & rid & -> & Hf & ->)].
  - by apply wf_on_answered.
  - by eapply wf_on_created.
Qed.

Lemma wf_tick t w : wf w → wf (tick t w).
Proof.
  intros Hwf. unfold tick. destruct (intervals w !! t) as [[c u o rid]|]; [|done].
  case_bool_decide.
  - by apply wf_on_clear.
  - destruct (isInBackground w); [done|]. by apply wf_on_await.
Qed.

Lemma wf_step env a w : wf w → wf (step env a w).
Proof.
  intros Hwf.
  destruct a as [t|id r|b|[|c]|[|u o] d at' n|[|u o] rid|[|u o] e at' n|[|u o] aid at'];
    cbn [step record updateRecord action updateAction stop fst]; try done.
  - by apply wf_tick.
  - by apply wf_settle.
  - by apply wf_on_stop.
  - by apply wf_on_record.
  - unfold _updateRecord; cbn. destruct (isFakeId rid) eqn:Hf.
    + by apply wf_on_fresh_flag.
    + by apply wf_on_updateRecord.
  - by apply wf_on_await.
  - unfold _updateAction. destruct (isFakeId aid); [done|]. by apply wf_on_await.
Qed.

Lemma wf_run env acts w : wf w → wf (run env acts w).
Proof.
  revert w. induction acts as [|a acts IH]; intros w Hwf; [done|].
  cbn. by apply IH, wf_step.
Qed.

Lemma reachable_wf env w : reachable env w → wf w.
Proof. intros (h & acts & ->). apply wf_run, wf_init. Qed.

(** ** After [stop] *)

Lemma settle_isStopped id r w : isStopped (settle id r w) = isStopped w.
Proof.
  destruct (inflight w !! id) as [next|] eqn:E.
  - rewrite (settle_inflight _ _ _ _ E).
    by destruct (respond_cases next r (answered id w)) as (-> & _).
  - unfold settle. by rewrite E.
Qed.

Lemma tick_isStopped t w : isStopped (tick t w) = isStopped w.
Proof.
  unfold tick. destruct (intervals w !! t) as [[c u o rid]|]; [|done].
  case_bool_decide; [done|]. by destruct (isInBackground w).
Qed.

(** No step of the page resets a flag, and flags are never freed. *)
Lemma step_stopped env a w cell : stopped cell w → stopped cell (step env a w).
Proof.
  unfold stopped. intros Hs.
  destruct a as [t|id r|b|[|c]|[|u o] d at' n|[|u o] rid|[|u o] e at' n|[|u o] aid at'];
    cbn [step record updateRecord action updateAction stop fst]; try done.
  - by rewrite tick_isStopped.
  - by rewrite settle_isStopped.
  - cbn. destruct (decide (c = cell)) as [->|Hne].
    + rewrite list_lookup_insert_eq; [done|]. by eapply lookup_lt_Some.
    + by rewrite list_lookup_insert_ne.
  - cbn. by apply lookup_app_l_Some.
  - unfold _updateRecord; cbn. destruct (isFakeId rid); cbn; by apply lookup_app_l_Some.
  - unfold _updateAction. by destruct (isFakeId aid).
Qed.

Lemma step_length env a w :
  (length (isStopped w) ≤ length (isStopped (step env a w)))%nat.
Proof.
  destruct a as [t|id r|b|[|c]|[|u o] d at' n|[|u o] rid|[|u o] e at' n|[|u o] aid at'];
    cbn [step record updateRecord action updateAction stop fst]; try done.
  - by rewrite tick_isStopped.
  - by rewrite settle_isStopped.
  - cbn. by rewrite length_insert.
  - cbn. rewrite length_app. lia.
  - unfold _updateRecord; cbn. destruct (isFakeId rid); cbn; rewrite length_app; lia.
  - unfold _updateAction. by destruct (isFakeId aid).
Qed.

(** A session without interval and without request never gets one. *)
Lemma step_no_owner env a w cell :
  cell < length (isStopped w) → no_owner cell w → no_owner cell (step env a w).
Proof.
  intros Hlt [Hiv Hrq].
  destruct a as [t|id r|b|[|c]|[|u o] d at' n|[|u o] rid|[|u o] e at' n|[|u o] aid at'];
    cbn [step record updateRecord action updateAction stop fst]; try done.
  - unfold tick. destruct (intervals w !! t) as [[c u o rid]|]; [|done].
    case_bool_decide.
    + split; [|done]. cbn. intros t' hb [_ Hl]%lookup_delete_Some. eauto.
    + destruct (isInBackground w); [done|]. split; [done|]. cbn.
      intros id [[_ Hl]|[_ Hl]]%request_insert; [done|]. by eapply Hrq.
  - destruct (inflight w !! id) as [next|] eqn:E.
    2: { unfold settle. by rewrite E. }
    rewrite (settle_inflight _ _ _ _ E).
    destruct (respond_cases next r (answered id w)) as (_ & Hi & _ & Hiv').
    unfold no_owner. rewrite Hi. cbn [answered inflight intervals] in *. split.
    + destruct Hiv' as [->|(c & u & o & n & rid & -> & Hf & ->)]; [done|].
      intros t hb [[_ <-]|[_ Hl]]%lookup_insert_Some; [|eauto].
      cbn. intros ->. apply (Hrq id). by rewrite E.
    + intros id' [_ Hl]%request_delete. by eapply Hrq.
  - split; [done|]. cbn.
    intros id [[_ Hl]|[_ Hl]]%request_insert; [|by eapply Hrq].
    cbn in Hl. injection Hl as Hl. lia.
  - unfold _updateRecord; cbn. destruct (isFakeId rid); cbn; [done|].
    split; [|done]. cbn.
    intros t hb [[_ <-]|[_ Hl]]%lookup_insert_Some; [cbn; lia|eauto].
  - split; [done|]. cbn.
    intros id [[_ Hl]|[_ Hl]]%request_insert; [done|]. by eapply Hrq.
  - unfold _updateAction. destruct (isFakeId aid); [done|]. split; [done|]. cbn.
    intros id [[_ Hl]|[_ Hl]]%request_insert; [done|]. by eapply Hrq.
Qed.

Lemma no_owner_fires cell t w : no_owner cell w → fires_for cell t w = false.
Proof.
  intros [Hiv _]. unfold fires_for. apply bool_decide_eq_false.
  destruct (intervals w !! t) as [hb|] eqn:E; [|done].
  cbn. intros [= Hc]. by eapply Hiv.
Qed.

Lemma no_owner_run env cell acts w :
  cell < length (isStopped w) → no_owner cell w →
  no_owner cell (run env acts w) ∧
  heartbeat_runs env cell acts w = 0 ∧ heartbeat_sends env cell acts w = 0.
Proof.
  revert w. induction acts as [|a acts IH]; intros w Hlt Hno; [done|].
  cbn [run heartbeat_runs heartbeat_sends].
  destruct (IH (step env a w)) as (? & -> & ->).
  { pose proof (step_length env a w). lia. }
  { by apply step_no_owner. }
  split; [done|].
  destruct a; try done. by rewrite (no_owner_fires _ _ _ Hno).
Qed.

(** Once the flag is set, an entry of the heartbeat callback clears the
    interval and sends nothing. *)
Lemma tick_stopped cell t w :
  stopped cell w → fires_for cell t w = true →
  tick t w = clearInterval t w.
Proof.
  unfold stopped, fires_for, tick. intros Hs Hf%bool_decide_eq_true.
  destruct (intervals w !! t) as [[c u o rid]|]; [|done].
  cbn in Hf. injection Hf as ->. by rewrite bool_decide_eq_true_2.
Qed.

Lemma stopped_sends env cell acts w :
  stopped cell w → heartbeat_sends env cell acts w = 0.
Proof.
  revert w. induction acts as [|a acts IH]; intros w Hs; [done|].
  cbn [heartbeat_sends]. rewrite IH by by apply step_stopped.
  destruct a; try done. destruct (fires_for cell t w) eqn:Hf; [|done].
  rewrite (tick_stopped _ _ _ Hs Hf). unfold fetches; cbn. lia.
Qed.

Lemma stopped_runs env cell acts w :
  wf w → stopped cell w → (heartbeat_runs env cell acts w ≤ 1)%nat.
Proof.
  revert w. induction acts as [|a acts IH]; intros w Hwf Hs; [cbn; lia|].
  cbn [heartbeat_runs].
  assert (Hrest : (heartbeat_runs env cell acts (step env a w) ≤ 1)%nat).
  { apply IH; [by apply wf_step|by apply step_stopped]. }
  destruct a; try done. destruct (fires_for cell t w) eqn:Hf; [|done].
  cbn [step]. rewrite (tick_stopped _ _ _ Hs Hf).
  apply bool_decide_eq_true in Hf.
  destruct (intervals w !! t) as [hb|] eqn:E; [|done]. cbn in Hf. injection Hf as Hc.
  destruct (no_owner_run env cell acts (clearInterval t w)) as (_ & -> & _); [| |lia].
  { apply Hwf in E. cbn. lia. }
  split; cbn.
  - intros t' hb' [Hne Hl]%lookup_delete_Some Hc'. apply Hne.
    eapply (wf_interval_uniq _ _ _ Hwf); eauto. congruence.
  - intros id Hr. eapply (wf_one_owner _ _ _ Hwf); eauto. by rewrite Hc.
Qed.

(** ** The response to createRecord *)

Lemma returned_id_inv op r v :
  returned_id op r = Some v →
  ∃ json, r = Response true (Some json) ∧ no_errors json ∧ payload_id op json = Ok v.
Proof.
  destruct r as [|[] [json|]]; cbn; try done.
  destruct (get json "errors") as [errs|] eqn:He; [|done].
  destruct (not_nullish errs) eqn:Hn; [done|].
  destruct (payload_id op json) as [id|] eqn:Hp; [|done].
  intros [= ->]. exists json. split; [done|]. split; [by exists errs|done].
Qed.

(** On the sentinel id the callback of [_record] only warns. *)
Lemma settle_sentinel w id cell url opts n r v :
  inflight w !! id = Some (Some (RecordCreated cell url opts n)) →
  returned_id "createRecord" r = Some v → isFakeId v = true →
  settle id r w = emit (Warn ownSite) (answered id w).
Proof.
  intros Hin (json & -> & (errs & He & Hn) & Hp)%returned_id_inv Hf.
  rewrite (settle_inflight _ _ _ _ Hin). unfold respond; cbn.
  unfold on_json. rewrite He, Hn. cbn. by rewrite Hp, Hf.
Qed.

(** On any other id it sets the interval of the session. *)
Lemma settle_created w id cell url opts n r v :
  inflight w !! id = Some (Some (RecordCreated cell url opts n)) →
  returned_id "createRecord" r = Some v → isFakeId v = false →
  intervals (settle id r w)
    = <[next_interval w := Heartbeat cell url opts v]> (intervals w).
Proof.
  intros Hin (json & -> & (errs & He & Hn) & Hp)%returned_id_inv Hf.
  rewrite (settle_inflight _ _ _ _ Hin). unfold respond; cbn.
  unfold on_json. rewrite He, Hn. cbn. rewrite Hp, Hf.
  destruct n as [n|]; cbn; [|done]. by destruct (fn_body n v).
Qed.

(** C2: when the response to the createRecord request of a [record] call
    returns the sentinel id, the only effect is the ignored-visitor
    warning: no interval is set then, and in no later run of the page does
    an interval or a heartbeat request of that session exist. *)
Theorem sentinel_starts_no_heartbeat env w id cell url opts n r :
  reachable env w →
  inflight w !! id = Some (Some (RecordCreated cell url opts n)) →
  returned_id "createRecord" r = Some (VStr fakeId) →
  trace (settle id r w) = trace w ++ [Warn ownSite] ∧
  intervals (settle id r w) = intervals w ∧
  next_interval (settle id r w) = next_interval w ∧
  (∀ acts,
     (∀ t, fires_for cell t (run env acts (settle id r w)) = false) ∧
     heartbeat_runs env cell acts (settle id r w) = 0 ∧
     heartbeat_sends env cell acts (settle id r w) = 0) ∧
  (∀ d a w0,
     inflight (fst (_record env url opts d a n w0)) !! next_fetch w0
       = Some (Some (RecordCreated (length (isStopped w0)) url opts n))).
Proof.
  intros Hwf%reachable_wf Hin Hr.
  rewrite (settle_sentinel _ _ _ _ _ _ _ _ Hin Hr eq_refl).
  split; [done|]. split; [done|]. split; [done|].
  split; [|intros; apply _record_inflight].
  assert (Hc : inflight w !! id ≫= request_cell = Some cell) by (by rewrite Hin).
  assert (Hno : no_owner cell (emit (Warn ownSite) (answered id w))).
  { split; cbn.
    - intros t hb Hl Hcell. eapply (wf_one_owner _ _ _ Hwf); eauto. by rewrite Hcell.
    - intros id' [Hne Hl]%request_delete. apply Hne.
      by eapply (wf_request_uniq _ _ _ Hwf). }
  intros acts.
  destruct (no_owner_run env cell acts (emit (Warn ownSite) (answered id w)))
    as (Hno' & -> & ->); [|done|].
  { cbn. by eapply (wf_request_cell _ _ _ Hwf). }
  split; [|done]. intros t. by apply no_owner_fires.
Qed.

(** ** The heartbeat *)

(** C1: in a reachable world, an interval exists only for a non-sentinel
    id.  One firing of it: with the flag set it clears the interval and
    sends nothing; with the flag unset and the page hidden it does
    nothing; otherwise it sends the one updateRecord request for the id
    and stays.  [stop] only sets the flag.  From then on, over any run,
    the heartbeat callback of the session is entered at most once and
    sends no request.  The intervals are the ones [updateRecord] sets, or
    the callback of [record] on a clean response with such an id. *)
Theorem heartbeat_tick_and_stop env w cell :
  reachable env w →
  cell < length (isStopped w) →
  (∀ t url opts rid, intervals w !! t = Some (Heartbeat cell url opts rid) →
     isFakeId rid = false ∧
     (isStopped w !! cell = Some true →
        tick t w = clearInterval t w ∧ trace (tick t w) = trace w) ∧
     (isStopped w !! cell = Some false → hidden w = true → tick t w = w) ∧
     (isStopped w !! cell = Some false → hidden w = false →
        tick t w = send url (updateRecordBody rid) opts None w ∧
        trace (tick t w)
          = trace w ++ [Fetch (mk_request url (updateRecordBody rid) opts)] ∧
        intervals (tick t w) = intervals w)) ∧
  stop (Stop cell) w = set_isStopped (<[cell := true]> (isStopped w)) w ∧
  isStopped (stop (Stop cell) w) !! cell = Some true ∧
  (∀ acts,
     heartbeat_sends env cell acts (stop (Stop cell) w) = 0 ∧
     (heartbeat_runs env cell acts (stop (Stop cell) w) ≤ 1)%nat) ∧
  (∀ url opts rid, isFakeId rid = false →
     _updateRecord url opts rid w
       = (setInterval (Heartbeat (length (isStopped w)) url opts rid)
            (set_isStopped (isStopped w ++ [false]) w),
          Stop (length (isStopped w)))) ∧
  (∀ id url opts n r v,
     inflight w !! id = Some (Some (RecordCreated cell url opts n)) →
     returned_id "createRecord" r = Some v → isFakeId v = false →
     intervals (settle id r w)
       = <[next_interval w := Heartbeat cell url opts v]> (intervals w)).
Proof.
  intros Hwf%reachable_wf Hlt.
  assert (Hs : stopped cell (stop (Stop cell) w)).
  { unfold stopped; cbn. by apply list_lookup_insert_eq. }
  split; [|split; [done|split; [done|split; [|split]]]].
  - intros t url opts rid Hl. split; [by eapply (wf_not_fake _ _ _ Hwf)|].
    unfold tick. rewrite Hl. split; [|split].
    + intros Hst. by rewrite bool_decide_eq_true_2.
    + intros Hst Hh. rewrite bool_decide_eq_false_2 by congruence.
      unfold isInBackground. by rewrite Hh.
    + intros Hst Hh. rewrite bool_decide_eq_false_2 by congruence.
      unfold isInBackground. by rewrite Hh.
  - intros acts. split; [by apply stopped_sends|].
    apply stopped_runs; [|done]. by apply wf_on_stop.
  - intros url opts rid Hf. unfold _updateRecord; cbn. by rewrite Hf.
  - intros id url opts n r v. apply settle_created.
Qed.

(** ** The theorems at concrete pages *)

Lemma create_gate_witness :
  validate VUndefined = Ok example_options ∧
  ((ignoreLocalhost example_options = true ∧
    isLocalhost (hostname (example_page "localhost" "Mozilla/5.0" "")) = true)
   ∨ isBot (userAgent (example_page "localhost" "Mozilla/5.0" "")) = true) ∧
  create (example_page "localhost" "Mozilla/5.0" "") "https://sol.example.com"
    VUndefined (init false)
    = (emit (Warn onLocalhost) (init false), Ok fakeInstance).
Proof.
  split; [reflexivity|]. split; [left; split; reflexivity|].
  exact (proj1 (create_gate (example_page "localhost" "Mozilla/5.0" "")
                  "https://sol.example.com" VUndefined example_options (init false)
                  eq_refl (or_introl (conj eq_refl eq_refl)))).
Defined.

Lemma record_callback_iff_witness :
  inflight example_pending !! 0
    = Some (Some (RecordCreated 0 example_url example_options (Some example_fn))) ∧
  ∃ delta,
    trace (settle 0 (created "5f3c") example_pending) = trace example_pending ++ delta ∧
    (∀ v, Called (fn_tag example_fn) v ∈ delta ↔
            returned_id "createRecord" (created "5f3c") = Some v ∧ isFakeId v = false).
Proof.
  assert (H : inflight example_pending !! 0
    = Some (Some (RecordCreated 0 example_url example_options (Some example_fn)))).
  { vm_compute. reflexivity. }
  split; [exact H|].
  destruct (record_callback_iff example_pending 0 0 example_url example_options
              example_fn (created "5f3c") H) as (delta & Ht & Hiff & _).
  exists delta. split; [exact Ht|exact Hiff].
Defined.

Lemma sentinel_starts_no_heartbeat_witness :
  reachable example_env example_pending ∧
  inflight example_pending !! 0
    = Some (Some (RecordCreated 0 example_url example_options (Some example_fn))) ∧
  returned_id "createRecord" (created fakeId) = Some (VStr fakeId) ∧
  trace (settle 0 (created fakeId) example_pending)
    = trace example_pending ++ [Warn ownSite] ∧
  ∀ acts, heartbeat_sends example_env 0 acts (settle 0 (created fakeId) example_pending) = 0.
Proof.
  assert (Hr : reachable example_env example_pending).
  { exists false. eexists. reflexivity. }
  assert (H : inflight example_pending !! 0
    = Some (Some (RecordCreated 0 example_url example_options (Some example_fn)))).
  { vm_compute. reflexivity. }
  split; [exact Hr|]. split; [exact H|]. split; [reflexivity|].
  destruct (sentinel_starts_no_heartbeat example_env example_pending 0 0 example_url
              example_options (Some example_fn) (created fakeId) Hr H eq_refl)
    as (Ht & _ & _ & Hn & _).
  split; [exact Ht|]. intros acts. exact (proj2 (proj2 (Hn acts))).
Defined.

Lemma heartbeat_tick_and_stop_witness :
  reachable example_env example_active ∧
  0 < length (isStopped example_active) ∧
  intervals example_active !! 0
    = Some (Heartbeat 0 example_url example_options (VStr "5f3c")) ∧
  (∀ acts,
     heartbeat_sends example_env 0 acts (stop (Stop 0) example_active) = 0 ∧
     (heartbeat_runs example_env 0 acts (stop (Stop 0) example_active) ≤ 1)%nat).
Proof.
  assert (Hr : reachable example_env example_active).
  { exists false. eexists. unfold example_active, example_pending.
    change (run example_env [ASettle 0 (created "5f3c")]
              (run example_env [?a] (init false)))
      with (run example_env [a; ASettle 0 (created "5f3c")] (init false)).
    reflexivity. }
  assert (Hl : 0 < length (isStopped example_active)).
  { vm_compute. lia. }
  split; [exact Hr|]. split; [exact Hl|]. split; [vm_compute; reflexivity|].
  exact (proj1 (proj2 (proj2 (proj2
    (heartbeat_tick_and_stop example_env example_active 0 Hr Hl))))).
Defined.

(** * Further properties of the script *)

(** ** Strings *)

Lemma prefix_cons a p b s :
  String.prefix (String a p) (String b s) = bool_decide (a = b) && String.prefix p s.
Proof.
  simpl. destruct (ascii_dec a b) as [->|Hne].
  - by rewrite bool_decide_eq_true_2.
  - by rewrite bool_decide_eq_false_2.
Qed.

Lemma prefix_nil_l s : String.prefix "" s = true.
Proof. by destruct s. Qed.

Lemma prefix_spec p s : String.prefix p s = true ↔ ∃ post, s = p +:+ post.
Proof.
  revert s. induction p as [|a p IH]; intros s.
  - rewrite prefix_nil_l. split; [|done]. intros _. by exists s.
  - destruct s as [|b s].
    + split; [done|]. by intros [post [=]].
    + rewrite prefix_cons, andb_true_iff, bool_decide_eq_true, IH. split.
      * intros [-> [post ->]]. by exists post.
      * intros [post [= -> ->]]. split; [done|]. by exists post.
Qed.

Lemma app_nil_r_str (s : string) : s +:+ "" = s.
Proof.
  induction s as [|c s IH]; [done|].
  change (String c (s +:+ "") = String c s). by rewrite IH.
Qed.

Lemma contains_spec pat s :
  contains pat s = true ↔ ∃ pre post, s = pre +:+ pat +:+ post.
Proof.
  induction s as [|c s IH].
  - cbn [contains]. rewrite orb_false_r, prefix_spec. split.
    + intros [post ->]. by exists "", post.
    + intros [[|a pre] [post E]]; [by exists post|]. discriminate.
  - cbn [contains]. rewrite orb_true_iff, prefix_spec, IH. split.
    + intros [[post ->]|(pre & post & ->)].
      * by exists "", post.
      * by exists (String c pre), post.
    + intros [[|a pre] [post E]].
      * left. by exists post.
      * right. injection E as -> ->. by exists pre, post.
Qed.

Lemma lowercase_app a b : lowercase (a +:+ b) = lowercase a +:+ lowercase b.
Proof.
  induction a as [|c a IH]; [done|].
  change (String (lower c) (lowercase (a +:+ b))
          = String (lower c) (lowercase a +:+ lowercase b)).
  by rewrite IH.
Qed.

Lemma lower_lower c : lower (lower c) = lower c.
Proof. destruct c as [[] [] [] [] [] [] [] []]; reflexivity. Qed.

Lemma lowercase_lowercase s : lowercase (lowercase s) = lowercase s.
Proof.
  induction s as [|c s IH]; [done|].
  cbn [lowercase]. by rewrite lower_lower, IH.
Qed.

Lemma isBot_words ua :
  isBot ua = true ↔ ∃ word, word ∈ bot_words ∧ contains word (lowercase ua) = true.
Proof.
  unfold isBot, bot_words. rewrite !orb_true_iff. split.
  - intros [[[H|H]|H]|H]; eexists; (split; [|exact H]);
      repeat first [apply list_elem_of_here | apply list_elem_of_further].
  - intros (word & Hin & H).
    repeat (apply elem_of_cons in Hin as [->|Hin]; [tauto|]).
    by apply elem_of_nil in Hin.
Qed.

(** X1: a user agent is classified as a bot exactly when its lower-case
    form contains one of the four words; so the classification ignores
    ASCII case, and text added before or after a bot's user agent leaves
    it a bot. *)
Theorem isBot_substring ua :
  (isBot ua = true ↔
     ∃ word pre post, word ∈ bot_words ∧ lowercase ua = pre +:+ word +:+ post) ∧
  isBot (lowercase ua) = isBot ua ∧
  (∀ before after, isBot ua = true → isBot (before +:+ ua +:+ after) = true).
Proof.
  assert (Hspec : ∀ ua, isBot ua = true ↔
            ∃ word pre post, word ∈ bot_words ∧ lowercase ua = pre +:+ word +:+ post).
  { intros x. rewrite isBot_words. split.
    - intros (word & Hin & (pre & post & E)%contains_spec). by exists word, pre, post.
    - intros (word & pre & post & Hin & E). exists word. split; [done|].
      apply contains_spec. by exists pre, post. }
  split; [apply Hspec|]. split.
  - unfold isBot. by rewrite lowercase_lowercase.
  - intros before after (word & pre & post & Hin & E)%Hspec. apply Hspec.
    exists word, (lowercase before +:+ pre), (post +:+ lowercase after).
    split; [done|]. rewrite !lowercase_app, E. by rewrite !app_assoc_str.
Qed.

(** ** [split] and [source] *)

Lemma split_go_cons sep cur c s :
  split_go sep 0 cur (String c s)
  = if String.prefix sep (String c s)
    then cur :: split_go sep (String.length sep - 1) "" s
    else split_go sep 0 (cur +:+ String c "") s.
Proof. reflexivity. Qed.

Lemma split_go_skip sep k cur c s :
  split_go sep (S k) cur (String c s) = split_go sep k cur s.
Proof. reflexivity. Qed.

(** The piece being read only prefixes the first piece of the result. *)
Lemma split_go_cur sep cur s :
  split_go sep 0 cur s
  = match split_go sep 0 "" s with
    | h :: t => (cur +:+ h) :: t
    | [] => []
    end.
Proof.
  revert cur. induction s as [|c s IH]; intros cur.
  - cbn. by rewrite app_nil_r_str.
  - rewrite !split_go_cons. destruct (String.prefix sep (String c s)).
    + by rewrite app_nil_r_str.
    + rewrite (IH (cur +:+ String c "")), (IH ("" +:+ String c "")).
      destruct (split_go sep 0 "" s) as [|h t]; [done|].
      by rewrite app_assoc_str.
Qed.

Lemma split_cons sep c s :
  String.prefix sep (String c s) = false →
  split sep (String c s)
  = match split sep s with
    | h :: t => String c h :: t
    | [] => []
    end.
Proof.
  intros Hp. unfold split. rewrite split_go_cons, Hp. apply split_go_cur.
Qed.

Lemma split_head sep s : head (split sep s) = Some (first_piece sep s).
Proof.
  induction s as [|c s IH]; [done|].
  cbn [first_piece]. destruct (String.prefix sep (String c s)) eqn:Hp.
  - unfold split. by rewrite split_go_cons, Hp.
  - rewrite (split_cons _ _ _ Hp). by destruct (split sep s) as [|h t]; simplify_eq/=.
Qed.

Lemma contains_cons_false pat c s :
  contains pat (String c s) = false →
  String.prefix pat (String c s) = false ∧ contains pat s = false.
Proof. cbn [contains]. by intros [? ?]%orb_false_iff. Qed.

Lemma split_none sep s : contains sep s = false → split sep s = [s].
Proof.
  induction s as [|c s IH]; [done|].
  intros [Hp Hc]%contains_cons_false. by rewrite (split_cons _ _ _ Hp), (IH Hc).
Qed.

Lemma first_piece_prefix sep s : ∃ tail, s = first_piece sep s +:+ tail.
Proof.
  induction s as [|c s [tail IH]]; [by exists ""|].
  cbn [first_piece]. destruct (String.prefix sep (String c s)).
  - by eexists.
  - exists tail. change (String c s = String c (first_piece sep s +:+ tail)).
    by rewrite <- IH.
Qed.

Lemma first_piece_clean a sep s :
  contains (String a sep) (first_piece (String a sep) s) = false.
Proof.
  induction s as [|c s IH]; [done|].
  cbn [first_piece]. destruct (String.prefix (String a sep) (String c s)) eqn:Hp; [done|].
  cbn [contains]. rewrite IH, orb_false_r.
  apply not_true_is_false. intros [post E]%prefix_spec.
  destruct (first_piece_prefix (String a sep) s) as [tail Ht].
  apply not_true_iff_false in Hp. apply Hp, prefix_spec.
  exists (post +:+ tail). rewrite <- app_assoc_str, <- E.
  change (String c s = String c (first_piece (String a sep) s +:+ tail)).
  by rewrite <- Ht.
Qed.

Lemma length_app_str (a b : string) :
  String.length (a +:+ b) = String.length a + String.length b.
Proof.
  induction a as [|c a IH]; [done|].
  change (S (String.length (a +:+ b)) = S (String.length a + String.length b)).
  by rewrite IH.
Qed.

(** A prefix test looks at no more characters than the pattern has. *)
Lemma prefix_long p a b :
  (String.length p ≤ String.length a)%nat →
  String.prefix p (a +:+ b) = String.prefix p a.
Proof.
  revert a. induction p as [|x p IH]; intros a Hl.
  - by rewrite !prefix_nil_l.
  - destruct a as [|y a]; [cbn in Hl; lia|].
    change (String y a +:+ b) with (String y (a +:+ b)).
    rewrite !prefix_cons, IH; [done|]. cbn in Hl. lia.
Qed.

Lemma split_source_after pre x :
  contains "source=" (pre +:+ "source") = false →
  split "source=" (pre +:+ "source=" +:+ x) = pre :: split "source=" x.
Proof.
  induction pre as [|c pre IH]; intros Hc.
  - unfold split.
    change ("" +:+ "source=" +:+ x) with (String "s" ("ource=" +:+ x)).
    rewrite split_go_cons.
    assert (Hp : String.prefix "source=" (String "s" ("ource=" +:+ x)) = true).
    { apply prefix_spec. by exists x. }
    rewrite Hp. change (String.length "source=" - 1) with 6.
    change ("ource=" +:+ x)
      with (String "o" (String "u" (String "r" (String "c" (String "e" (String "=" x)))))).
    by rewrite !split_go_skip.
  - change (String c pre +:+ "source") with (String c (pre +:+ "source")) in Hc.
    apply contains_cons_false in Hc as [Hp Hc].
    change (String c pre +:+ "source=" +:+ x)
      with (String c (pre +:+ "source=" +:+ x)).
    rewrite split_cons, (IH Hc); [done|].
    etrans; [|exact Hp].
    change (String c (pre +:+ "source=" +:+ x))
      with (String c pre +:+ ("source" +:+ ("=" +:+ x))).
    rewrite <- app_assoc_str.
    change (String c (pre +:+ "source")) with (String c pre +:+ "source").
    apply prefix_long. rewrite length_app_str. cbn. lia.
Qed.

(** X2: when the query string contains no [source=], the collector
    reports no source. *)
Theorem source_absent query :
  contains "source=" query = false → source query = None.
Proof. intros Hc. unfold source. by rewrite (split_none _ _ Hc). Qed.

(** X3: a reported source is never empty and contains no [&]. *)
Theorem source_clean query s :
  source query = Some s → s ≠ "" ∧ contains "&" s = false.
Proof.
  unfold source. rewrite split_head. cbn [default].
  destruct (String.eqb _ "") eqn:He; [done|]. intros [= <-]. split.
  - intros E. rewrite E in He. done.
  - apply first_piece_clean.
Qed.

(** X4: when the first [source=] of the query string starts after [pre],
    the source is what follows it up to the next [&] or the next
    [source=], whichever comes first, and is absent if that is empty. *)
Theorem source_after_first pre x :
  contains "source=" (pre +:+ "source") = false →
  source (pre +:+ "source=" +:+ x)
  = non_empty (first_piece "&" (first_piece "source=" x)).
Proof.
  intros Hc. unfold source. rewrite (split_source_after _ _ Hc).
  change ((pre :: split "source=" x) !! 1) with (split "source=" x !! 0).
  by rewrite <- head_lookup, !split_head.
Qed.

Lemma source_absent_witness :
  contains "source=" "?page=2&sort=asc" = false ∧ source "?page=2&sort=asc" = None.
Proof. split; [reflexivity|]. exact (source_absent "?page=2&sort=asc" eq_refl). Defined.

Lemma source_clean_witness :
  source "?source=news&page=2" = Some "news" ∧
  "news" ≠ "" ∧ contains "&" "news" = false.
Proof. split; [reflexivity|]. exact (source_clean "?source=news&page=2" "news" eq_refl). Defined.

Lemma source_after_first_witness :
  contains "source=" ("?page=2&" +:+ "source") = false ∧
  source ("?page=2&" +:+ "source=" +:+ "news&sort=asc") = Some "news".
Proof.
  split; [reflexivity|].
  exact (source_after_first "?page=2&" "news&sort=asc" eq_refl).
Defined.

(** ** Options and instance creation *)

(** X5: on every input but [null], [validate] returns: each field is the
    default unless the input holds the opposite boolean for it, and an
    input that is not an object ([undefined], a boolean, a number, a
    string, an array) gives exactly the defaults. *)
Theorem validate_degrades_to_defaults (v : value) :
  v ≠ VNull →
  ∃ o, validate v = Ok o ∧
    (detailed o = true ↔ get v "detailed" = Ok (VBool true)) ∧
    (ignoreLocalhost o = false ↔ get v "ignoreLocalhost" = Ok (VBool false)) ∧
    (ignoreOwnVisits o = false ↔ get v "ignoreOwnVisits" = Ok (VBool false)) ∧
    ((∀ fields, v ≠ VObj fields) →
       o = {| detailed := false; ignoreLocalhost := true; ignoreOwnVisits := true |}).
Proof.
  intros Hn. destruct (validate_not_null v Hn) as (o & Ho & Hd & Hl & Hv).
  exists o. split; [done|]. split; [done|]. split; [done|]. split; [done|].
  intros Hobj. destruct v; try congruence; cbn in Ho; by injection Ho as <-.
Qed.

Lemma validate_degrades_to_defaults_witness :
  VObj [("detailed", VStr "yes"); ("ignoreOwnVisits", VBool false); ("extra", VNum 1)] ≠ VNull ∧
  validate (VObj [("detailed", VStr "yes"); ("ignoreOwnVisits", VBool false); ("extra", VNum 1)])
  = Ok {| detailed := false; ignoreLocalhost := true; ignoreOwnVisits := false |}.
Proof.
  split; [discriminate|].
  destruct (validate_degrades_to_defaults
              (VObj [("detailed", VStr "yes"); ("ignoreOwnVisits", VBool false);
                     ("extra", VNum 1)])) as (o & Ho & _); [discriminate|].
  reflexivity.
Defined.

(** X6: [create] throws exactly when its options are [null]; and whatever
    its arguments, it sends nothing, sets no interval and touches no
    flag. *)
Theorem create_throws_iff_null env server opts w :
  ((∃ e, snd (create env server opts w) = Throw e) ↔ opts = VNull) ∧
  fetches (fst (create env server opts w)) = fetches w ∧
  intervals (fst (create env server opts w)) = intervals w ∧
  inflight (fst (create env server opts w)) = inflight w ∧
  isStopped (fst (create env server opts w)) = isStopped w.
Proof.
  assert (Hcase : opts = VNull ∨ opts ≠ VNull).
  { destruct opts; auto; right; discriminate. }
  unfold create. destruct Hcase as [->|Hn].
  - cbn. repeat split; eauto.
  - destruct (validate_not_null opts Hn) as (o & -> & _).
    assert (Hno : ∀ i : instance, (∃ e, Ok i = Throw e) ↔ opts = VNull).
    { intros i. split; [by intros [e [=]]|done]. }
    destruct (ignoreLocalhost o && isLocalhost (hostname env)); cbn [fst snd].
    { rewrite fetches_emit. by split; [apply Hno|]. }
    destruct (isBot (userAgent env)); cbn [fst snd].
    { rewrite fetches_emit. by split; [apply Hno|]. }
    by split; [apply Hno|].
Qed.

(** X7: a real instance comes from [create] only without a warning, for
    options that validate to the ones it holds, and with the endpoint of
    the server as its URL; its [record] then sends one createRecord
    request there, with the collected attributes if none were passed and
    with the passed value otherwise (also when that value is [null]). *)
Theorem create_then_record env server opts w w' url o d a n :
  create env server opts w = (w', Ok (realInstance url o)) →
  w' = w ∧ url = endpoint server ∧ validate opts = Ok o ∧
  (ignoreLocalhost o && isLocalhost (hostname env) = false) ∧
  isBot (userAgent env) = false ∧
  trace (fst (record (realInstance url o) env d a n w))
    = trace w ++
      [Fetch (mk_request (endpoint server)
                (createRecordBody d
                   (match a with
                    | VUndefined => attributes env (detailed o)
                    | _ => a
                    end)) o)] ∧
  snd (record (realInstance url o) env d a n w) = Stop (length (isStopped w)).
Proof.
  unfold create. destruct (validate opts) as [o'|]; [|done].
  destruct (ignoreLocalhost o' && isLocalhost (hostname env)) eqn:Hl; [done|].
  destruct (isBot (userAgent env)) eqn:Hb; [done|].
  intros [= <- <- <-]. by rewrite Hl.
Qed.

Lemma create_then_record_witness :
  create example_env "https://sol.example.com/" VUndefined (init false)
    = (init false, Ok (realInstance example_url example_options)) ∧
  trace (fst (record (realInstance example_url example_options) example_env
                (VStr "domain") VNull None (init false)))
    = [Fetch (mk_request example_url (createRecordBody (VStr "domain") VNull)
                example_options)].
Proof.
  split; [reflexivity|].
  exact (proj1 (proj2 (proj2 (proj2 (proj2 (proj2
    (create_then_record example_env "https://sol.example.com/" VUndefined
       (init false) (init false) example_url example_options
       (VStr "domain") VNull None eq_refl))))))).
Defined.

(** ** Actions *)

Lemma settle_send url body opts next r w :
  settle (next_fetch w) r (send url body opts next w)
  = fst (respond next r (answered (next_fetch w) (send url body opts next w))).
Proof. apply settle_inflight, send_inflight. Qed.

(** X8: [action] is one-shot: it sends one createAction request and sets
    no interval and no flag.  When the response arrives no interval is set
    and nothing more is sent; the callback is called with [v] exactly when
    the response is clean, returns the id [v] and [v] is not the sentinel,
    and on the sentinel the only effect is the warning. *)
Theorem action_one_shot url opts eventId attrs n w r :
  let w1 := _action url opts eventId attrs n w in
  let w2 := settle (next_fetch w) r w1 in
  trace w1 = trace w ++ [Fetch (mk_request url (createActionBody eventId attrs) opts)] ∧
  intervals w1 = intervals w ∧ isStopped w1 = isStopped w ∧
  intervals w2 = intervals w ∧ fetches w2 = fetches w1 ∧
  ∃ delta, trace w2 = trace w1 ++ delta ∧
    (∀ f, n = Some f → ∀ v,
       Called (fn_tag f) v ∈ delta ↔
         returned_id "createAction" r = Some v ∧ isFakeId v = false) ∧
    (returned_id "createAction" r = Some (VStr fakeId) → delta = [Warn ownSite]).
Proof.
  intros w1 w2. split; [done|]. split; [done|]. split; [done|].
  assert (Hw2 : w2 = fst (respond (Some (ActionCreated n)) r
                            (answered (next_fetch w) w1))) by apply settle_send.
  split.
  { rewrite Hw2.
    destruct (respond_cases (Some (ActionCreated n)) r (answered (next_fetch w) w1))
      as (_ & _ & _ & [->|(c & u & o & n' & rid & [=] & _)]). done. }
  split; [by rewrite Hw2, respond_fetches|].
  assert (Hno : ∀ e (f : user_fn), n = Some f → ∀ v,
            Called (fn_tag f) v ∈ [LogError e] ↔ None = Some v ∧ isFakeId v = false).
  { intros e f _ v. rewrite list_elem_of_singleton. split; [done|by intros [[=] _]]. }
  rewrite Hw2. change (trace w1) with (trace (answered (next_fetch w) w1)).
  generalize (answered (next_fetch w) w1). intros w0. unfold respond, returned_id.
  destruct r as [|[] [json|]]; cbn.
  1,3-5: eexists; split; [reflexivity|]; split; [apply Hno|done].
  unfold on_json. destruct (get json "errors") as [errs|]; cbn.
  2: { eexists; split; [reflexivity|]; split; [apply Hno|done]. }
  destruct (not_nullish errs).
  { destruct (mbind _ _); cbn; eexists; (split; [reflexivity|]);
      (split; [apply Hno|done]). }
  cbn. destruct (payload_id "createAction" json) as [aid|]; cbn.
  2: { eexists; split; [reflexivity|]; split; [apply Hno|done]. }
  destruct (isFakeId aid) eqn:Hf; cbn.
  { eexists; split; [reflexivity|]. split; [|done].
    intros f _ v. rewrite list_elem_of_singleton. split; [done|].
    intros [[= ->] ?]. congruence. }
  assert (Hiff : ∀ tag v, Called tag v = Called tag aid ↔
                   Some aid = Some v ∧ isFakeId v = false).
  { intros tag v. split; [intros [= ->]; by split | by intros [[= ->] _]]. }
  destruct n as [f|]; cbn.
  - destruct (fn_body f aid) as [e|]; cbn.
    + exists [Called (fn_tag f) aid; LogError e]. split; [by rewrite <- app_assoc|].
      split; [|by intros [= ->]].
      intros ? [= <-] v.
      rewrite elem_of_cons, list_elem_of_singleton, <- Hiff.
      split; [intros [?|[=]]; done|by left].
    + exists [Called (fn_tag f) aid]. split; [done|]. split; [|by intros [= ->]].
      intros ? [= <-] v. by rewrite list_elem_of_singleton.
  - exists []. split; [by rewrite app_nil_r|]. split; [done|by intros [= ->]].
Qed.

Lemma clean_dec r : clean r ∨ ¬ clean r.
Proof.
  destruct r as [|[] [json|]]; try (right; by intros (j & [=] & _)).
  destruct (get json "errors") as [errs|] eqn:He.
  - destruct (not_nullish errs) eqn:Hn.
    + right. intros (j & [= <-] & errs' & He' & Hn'). congruence.
    + left. exists json. split; [done|]. by exists errs.
  - right. intros (j & [= <-] & errs' & He' & Hn'). congruence.
Qed.

(** X9: [updateAction] on the sentinel id only warns and sends nothing;
    on any other id it sends one updateAction request, and the response
    to it has no effect when clean and is logged as one error
    otherwise. *)
Theorem updateAction_effects url opts actionId attrs w r :
  let w1 := _updateAction url opts actionId attrs w in
  let w2 := settle (next_fetch w) r w1 in
  (isFakeId actionId = true → w1 = emit (Warn ownSite) w ∧ fetches w1 = fetches w) ∧
  (isFakeId actionId = false →
     trace w1 = trace w ++ [Fetch (mk_request url (updateActionBody actionId attrs) opts)] ∧
     intervals w2 = intervals w ∧ fetches w2 = fetches w1 ∧
     ((clean r ∧ trace w2 = trace w1) ∨
      (¬ clean r ∧ ∃ e, trace w2 = trace w1 ++ [LogError e]))).
Proof.
  intros w1 w2. unfold w2, w1, _updateAction. split.
  - intros ->. by rewrite fetches_emit.
  - intros ->. split; [done|]. rewrite settle_send.
    split.
    { destruct (respond_cases None r (answered (next_fetch w)
                 (send url (updateActionBody actionId attrs) opts None w)))
        as (_ & _ & _ & [->|(c & u & o & n' & rid & [=] & _)]). done. }
    split; [by rewrite respond_fetches|].
    destruct (clean_dec r) as [Hc|Hc].
    + left. split; [done|]. destruct Hc as (json & -> & errs & He & Hn).
      unfold respond; cbn. unfold on_json. by rewrite He, Hn.
    + right. split; [done|]. unfold respond.
      destruct r as [|[] [json|]]; cbn; eauto.
      unfold on_json. destruct (get json "errors") as [errs|] eqn:He; cbn; eauto.
      destruct (not_nullish errs) eqn:Hn.
      * destruct (mbind _ _); cbn; eauto.
      * exfalso. apply Hc. exists json. split; [done|]. by exists errs.
Qed.

(** ** Sessions over runs of the page *)

Lemma tick_hidden t w : hidden (tick t w) = hidden w.
Proof.
  unfold tick. destruct (intervals w !! t) as [[c u o rid]|]; [|done].
  case_bool_decide; [done|]. by destruct (isInBackground w).
Qed.

Lemma settle_hidden id r w : hidden (settle id r w) = hidden w.
Proof.
  destruct (inflight w !! id) as [next|] eqn:E.
  - rewrite (settle_inflight _ _ _ _ E).
    by destruct (respond_cases next r (answered id w)) as (_ & _ & -> & _).
  - unfold settle. by rewrite E.
Qed.

Lemma settle_fetches id r w : fetches (settle id r w) = fetches w.
Proof.
  destruct (inflight w !! id) as [next|] eqn:E.
  - by rewrite (settle_inflight _ _ _ _ E), respond_fetches.
  - unfold settle. by rewrite E.
Qed.

Lemma send_fetches url body opts next w :
  fetches (send url body opts next w) = S (fetches w).
Proof. unfold send. exact (fetches_emit (Fetch _) w). Qed.

Lemma tick_fetches t w :
  fetches (tick t w) = fetches w ∨
  (hidden w = false ∧ fetches (tick t w) = S (fetches w)).
Proof.
  unfold tick. destruct (intervals w !! t) as [[c u o rid]|]; [|by left].
  case_bool_decide; [by left|]. unfold isInBackground.
  destruct (hidden w); [by left|]. right. by rewrite send_fetches.
Qed.

(** X10: while the page is hidden, timers, responses and [stop] never
    produce a request, however they interleave. *)
Theorem hidden_page_is_silent env acts w :
  hidden w = true → forallb passive acts = true →
  fetches (run env acts w) = fetches w ∧ hidden (run env acts w) = true.
Proof.
  revert w. induction acts as [|a acts IH]; intros w Hh Hp; [done|].
  cbn in Hp. apply andb_true_iff in Hp as [Ha Hp]. cbn [run].
  assert (Hs : fetches (step env a w) = fetches w ∧ hidden (step env a w) = true).
  { destruct a as [t|id r|b|h| | | |]; try done; cbn [step].
    - rewrite tick_hidden. split; [|done].
      destruct (tick_fetches t w) as [?|[? _]]; [done|congruence].
    - by rewrite settle_hidden, settle_fetches.
    - by destruct h. }
  destruct Hs as [Hf Hh']. destruct (IH _ Hh' Hp) as [-> ->]. done.
Qed.

(** X11: a step of the page sends at most one request; responses, [stop]
    and visibility changes send none, and [record] and [action] of a real
    instance send exactly one. *)
Theorem one_request_per_step env a w :
  (fetches (step env a w) = fetches w ∨ fetches (step env a w) = S (fetches w)) ∧
  match a with
  | ASettle _ _ | AStop _ | AVisibility _ => fetches (step env a w) = fetches w
  | ARecord (realInstance _ _) _ _ _ | AAction (realInstance _ _) _ _ _ =>
      fetches (step env a w) = S (fetches w)
  | ARecord fakeInstance _ _ _ | AUpdateRecord fakeInstance _
  | AAction fakeInstance _ _ _ | AUpdateAction fakeInstance _ _ =>
      step env a w = w
  | AUpdateRecord (realInstance _ _) _ => fetches (step env a w) = fetches w
  | _ => True
  end.
Proof.
  destruct a as [t|id r|b|[|c]|[|u o] d at' n|[|u o] rid|[|u o] e at' n|[|u o] aid at'];
    cbn [step record updateRecord action updateAction stop fst]; auto.
  - split; [|done]. destruct (tick_fetches t w) as [?|[_ ?]]; auto.
  - rewrite settle_fetches. by split; [left|].
  - unfold _record. cbn [new_isStopped fst]. rewrite send_fetches. by split; [right|].
  - unfold _updateRecord. cbn [new_isStopped]. destruct (isFakeId rid); cbn [fst].
    + rewrite fetches_emit. by split; [left|].
    + by split; [left|].
  - unfold _action. rewrite send_fetches. by split; [right|].
  - unfold _updateAction. destruct (isFakeId aid).
    + rewrite fetches_emit. by split; [left|].
    + rewrite send_fetches. by split; [right|].
Qed.

(** X12: while a session is not stopped and the page is visible, every
    firing of its interval sends one updateRecord request for its id and
    leaves the interval in place. *)
Theorem heartbeat_every_tick env w t cell url opts rid k :
  intervals w !! t = Some (Heartbeat cell url opts rid) →
  isStopped w !! cell = Some false →
  hidden w = false →
  trace (run env (replicate k (ATick t)) w)
    = trace w ++ replicate k (Fetch (mk_request url (updateRecordBody rid) opts)) ∧
  intervals (run env (replicate k (ATick t)) w) = intervals w ∧
  heartbeat_sends env cell (replicate k (ATick t)) w = k.
Proof.
  revert w. induction k as [|k IH]; intros w Hi Hs Hh.
  { cbn. by rewrite app_nil_r. }
  assert (Ht : tick t w = send url (updateRecordBody rid) opts None w).
  { unfold tick. rewrite Hi, bool_decide_eq_false_2 by congruence.
    unfold isInBackground. by rewrite Hh. }
  cbn [replicate run heartbeat_sends step]. rewrite Ht.
  destruct (IH (send url (updateRecordBody rid) opts None w)) as (-> & -> & ->); try done.
  split; [|split; [done|]].
  - cbn [send await emit trace]. by rewrite <- app_assoc.
  - unfold fires_for. rewrite Hi. rewrite bool_decide_eq_true_2 by done.
    rewrite send_fetches. lia.
Qed.

(** X13: a page that only holds fake instances never logs, sends or
    schedules anything, whatever it calls and whatever timers or responses
    are imagined to arrive. *)
Theorem gated_page_is_silent env acts h :
  forallb on_fake acts = true →
  trace (run env acts (init h)) = [] ∧
  intervals (run env acts (init h)) = ∅ ∧
  inflight (run env acts (init h)) = ∅ ∧
  isStopped (run env acts (init h)) = [].
Proof.
  assert (H : ∀ w, forallb on_fake acts = true →
            trace w = [] ∧ intervals w = ∅ ∧ inflight w = ∅ ∧ isStopped w = [] →
            trace (run env acts w) = [] ∧ intervals (run env acts w) = ∅ ∧
            inflight (run env acts w) = ∅ ∧ isStopped (run env acts w) = []).
  { induction acts as [|a acts IH]; intros w Hp Hw; [done|].
    cbn in Hp. apply andb_true_iff in Hp as [Ha Hp]. cbn [run]. apply IH; [done|].
    destruct Hw as (Ht & Hi & Hr & Hs).
    destruct a as [t|id r|b|[|c]|[|u o] d at' n|[|u o] rid|[|u o] e at' n|[|u o] aid at'];
      try done; cbn [step record updateRecord action updateAction stop fst]; try done.
    - unfold tick. by rewrite Hi, lookup_empty.
    - unfold settle. by rewrite Hr, lookup_empty.
    - cbn. by rewrite Hs. }
  intros Hp. by apply H.
Qed.

(** X14: [stop] is idempotent, two [stop]s commute, and [stop] changes
    nothing but flags. *)
Theorem stop_idempotent h1 h2 w :
  stop h1 (stop h1 w) = stop h1 w ∧
  stop h1 (stop h2 w) = stop h2 (stop h1 w) ∧
  trace (stop h1 w) = trace w ∧ intervals (stop h1 w) = intervals w ∧
  inflight (stop h1 w) = inflight w ∧
  length (isStopped (stop h1 w)) = length (isStopped w) ∧
  (∀ c, isStopped w !! c = Some true → isStopped (stop h1 w) !! c = Some true).
Proof.
  split; [|split; [|split; [|split; [|split; [|split]]]]].
  - destruct h1 as [|c]; [done|]. unfold stop, set_isStopped; cbn.
    by rewrite list_insert_insert_eq.
  - destruct h1 as [|c1], h2 as [|c2]; try done. unfold stop, set_isStopped; cbn.
    destruct (decide (c1 = c2)) as [->|Hne]; [done|].
    by rewrite list_insert_insert_ne.
  - by destruct h1.
  - by destruct h1.
  - by destruct h1.
  - destruct h1; [done|]. cbn. by rewrite length_insert.
  - intros c Hc. apply (step_stopped example_env (AStop h1) w c Hc).
Qed.

(** X15: in a reachable world a session has at most one interval, has
    none while its createRecord request is still in flight, and every
    interval belongs to an allocated flag and beats for a non-sentinel
    id. *)
Theorem session_ownership env w :
  reachable env w →
  (∀ t1 t2 hb1 hb2,
     intervals w !! t1 = Some hb1 → intervals w !! t2 = Some hb2 →
     hb_cell hb1 = hb_cell hb2 → t1 = t2) ∧
  (∀ t hb id c u o n,
     intervals w !! t = Some hb →
     inflight w !! id = Some (Some (RecordCreated c u o n)) → hb_cell hb ≠ c) ∧
  (∀ id1 id2 c u1 o1 n1 u2 o2 n2,
     inflight w !! id1 = Some (Some (RecordCreated c u1 o1 n1)) →
     inflight w !! id2 = Some (Some (RecordCreated c u2 o2 n2)) → id1 = id2) ∧
  (∀ t c u o rid,
     intervals w !! t = Some (Heartbeat c u o rid) →
     c < length (isStopped w) ∧ isFakeId rid = false).
Proof.
  intros Hwf%reachable_wf. split; [|split; [|split]].
  - apply Hwf.
  - intros t hb id c u o n Hi Hr Hc.
    apply (wf_one_owner _ _ _ Hwf t hb id Hi). by rewrite Hr, Hc.
  - intros id1 id2 c u1 o1 n1 u2 o2 n2 H1 H2.
    apply (wf_request_uniq _ _ _ Hwf id1 id2 c); [by rewrite H1|by rewrite H2].
  - intros t c u o rid Hi. split.
    + apply (wf_interval_cell _ _ _ Hwf _ _ Hi).
    + apply (wf_not_fake _ _ _ Hwf _ _ _ _ _ Hi).
Qed.

Lemma respond_failed cell url opts n r w :
  returned_id "createRecord" r = None →
  ∃ e, fst (respond (Some (RecordCreated cell url opts n)) r w) = emit (LogError e) w.
Proof.
  unfold respond, returned_id. destruct r as [|[] [json|]]; cbn; eauto.
  unfold on_json. destruct (get json "errors") as [errs|]; cbn; eauto.
  destruct (not_nullish errs).
  { destruct (mbind _ _); cbn; eauto. }
  cbn. destruct (payload_id "createRecord" json) as [id|]; cbn; [done|eauto].
Qed.

(** X16: when the createRecord request of a [record] call fails (network
    error, bad status, unreadable body, [errors] entry, or no id in the
    body), the only effect is one logged error: the callback is not
    called, no interval is set, and the session never sends a
    heartbeat. *)
Theorem failed_create_is_silent env w id cell url opts n r :
  reachable env w →
  inflight w !! id = Some (Some (RecordCreated cell url opts n)) →
  returned_id "createRecord" r = None →
  (∃ e, settle id r w = emit (LogError e) (answered id w)) ∧
  ∀ acts,
    (∀ t, fires_for cell t (run env acts (settle id r w)) = false) ∧
    heartbeat_runs env cell acts (settle id r w) = 0 ∧
    heartbeat_sends env cell acts (settle id r w) = 0.
Proof.
  intros Hwf%reachable_wf Hin Hr.
  rewrite (settle_inflight _ _ _ _ Hin).
  destruct (respond_failed cell url opts n r (answered id w) Hr) as [e ->].
  split; [by exists e|].
  assert (Hc : inflight w !! id ≫= request_cell = Some cell) by (by rewrite Hin).
  assert (Hno : no_owner cell (emit (LogError e) (answered id w))).
  { split; cbn.
    - intros t hb Hl Hcell. eapply (wf_one_owner _ _ _ Hwf); eauto. by rewrite Hcell.
    - intros id' [Hne Hl]%request_delete. apply Hne.
      by eapply (wf_request_uniq _ _ _ Hwf). }
  intros acts.
  destruct (no_owner_run env cell acts (emit (LogError e) (answered id w)))
    as (Hno' & -> & ->); [|done|].
  { cbn. by eapply (wf_request_cell _ _ _ Hwf). }
  split; [|done]. intros t. by apply no_owner_fires.
Qed.

(** X17: [updateRecord] on the sentinel id logs the warning, sends
    nothing and sets no interval; the handle it returns is a real [stop]
    for a session that never beats. *)
Theorem updateRecord_sentinel env url opts rid w :
  reachable env w →
  isFakeId rid = true →
  _updateRecord url opts rid w
    = (emit (Warn ownSite) (set_isStopped (isStopped w ++ [false]) w),
       Stop (length (isStopped w))) ∧
  intervals (fst (_updateRecord url opts rid w)) = intervals w ∧
  fetches (fst (_updateRecord url opts rid w)) = fetches w ∧
  ∀ acts,
    heartbeat_runs env (length (isStopped w)) acts (fst (_updateRecord url opts rid w)) = 0 ∧
    heartbeat_sends env (length (isStopped w)) acts (fst (_updateRecord url opts rid w)) = 0.
Proof.
  intros Hwf%reachable_wf Hf. unfold _updateRecord. cbn [new_isStopped]. rewrite Hf.
  split; [done|]. split; [done|]. cbn [fst]. split; [by rewrite fetches_emit|].
  intros acts.
  destruct (no_owner_run env (length (isStopped w)) acts
              (emit (Warn ownSite) (set_isStopped (isStopped w ++ [false]) w)))
    as (_ & -> & ->); [| |done].
  - cbn. rewrite length_app. cbn. lia.
  - split; cbn.
    + intros t hb Hl Hc. apply (wf_interval_cell _ _ _ Hwf) in Hl. lia.
    + intros id Hr. apply (wf_request_cell _ _ _ Hwf) in Hr. lia.
Qed.

(** ** Bootstrap *)

Section BootstrapProperties.

Variable JSON_parse : string -> result value.

(** X18: [detect] sends at most one request and sets no interval; when it
    throws (options that do not parse, or that parse to [null]) nothing
    has been logged or sent; without a matching element it does
    nothing. *)
Theorem detect_at_most_one_request env elem w :
  (fetches (fst (detect JSON_parse env elem w)) = fetches w ∨
   fetches (fst (detect JSON_parse env elem w)) = S (fetches w)) ∧
  intervals (fst (detect JSON_parse env elem w)) = intervals w ∧
  (∀ e, snd (detect JSON_parse env elem w) = Throw e →
     fst (detect JSON_parse env elem w) = w) ∧
  detect JSON_parse env None w = (w, Ok ()).
Proof.
  split; [|split; [|split; [|done]]]; destruct elem as [elem|]; cbn [detect fst snd];
    try done; try by left.
  all: destruct (JSON_parse _) as [parsed|]; cbn [fst snd]; try done; try by left.
  all: unfold create; destruct (validate parsed) as [o|]; cbn [fst snd];
    try done; try by left.
  all: destruct (ignoreLocalhost o && isLocalhost (hostname env)); cbn [fst snd record];
    rewrite ?fetches_emit; try done; try by left.
  all: destruct (isBot (userAgent env)); cbn [fst snd record];
    rewrite ?fetches_emit; try done; try by left.
  right. unfold _record. cbn [new_isStopped fst]. by rewrite send_fetches.
Qed.

(** X19: an element without [data-sol-opts] (or with an empty one) is
    handled with the default options, and without [data-sol-server] (or
    with an empty one) its endpoint is [/api]: on a localhost the page is
    only warned; elsewhere, unless the user agent is a bot, one
    createRecord request for the domain id goes to the endpoint, without
    credentials and with the three default attributes only. *)
Theorem detect_defaults env elem w :
  JSON_parse "{}" = Ok (VObj []) →
  data_sol_opts elem = None ∨ data_sol_opts elem = Some "" →
  isBot (userAgent env) = false →
  let url := endpoint (or_default (data_sol_server elem) "") in
  let o := {| detailed := false; ignoreLocalhost := true; ignoreOwnVisits := true |} in
  (data_sol_server elem = None ∨ data_sol_server elem = Some "" → url = "/api") ∧
  (isLocalhost (hostname env) = true →
     detect JSON_parse env (Some elem) w = (emit (Warn onLocalhost) w, Ok ())) ∧
  (isLocalhost (hostname env) = false →
     snd (detect JSON_parse env (Some elem) w) = Ok () ∧
     trace (fst (detect JSON_parse env (Some elem) w))
       = trace w ++
         [Fetch {| req_url := url; req_method := "POST";
                   req_content_type := "application/json;charset=UTF-8";
                   req_credentials := CredOmit;
                   req_body :=
                     createRecordBody (VStr (data_sol_domain_id elem))
                       (VObj [("siteLocation", VStr (href env));
                              ("siteReferrer", VStr (referrer env));
                              ("source", of_source (source (search env)))]) |}] ∧
     inflight (fst (detect JSON_parse env (Some elem) w)) !! next_fetch w
       = Some (Some (RecordCreated (length (isStopped w)) url o None))).
Proof.
  intros Hparse Hopts Hbot url o.
  assert (Ho : or_default (data_sol_opts elem) "{}" = "{}").
  { by destruct Hopts as [->| ->]. }
  split; [intros [E|E]; unfold url; by rewrite E|].
  unfold detect. rewrite Ho, Hparse. unfold create. cbn [validate].
  change (validate (VObj [])) with (Ok o). cbn [ignoreLocalhost andb].
  split; intros Hl; rewrite Hl; [done|]. rewrite Hbot.
  split; [done|]. split; [done|]. cbn. apply lookup_insert_eq.
Qed.

End BootstrapProperties.

(** ** The further properties at concrete pages *)

Lemma example_active_reachable : reachable example_env example_active.
Proof.
  exists false.
  exists [ARecord (realInstance example_url example_options) (VStr "domain") VUndefined
            (Some example_fn);
          ASettle 0 (created "5f3c")].
  reflexivity.
Defined.

Lemma example_pending_reachable : reachable example_env example_pending.
Proof. exists false. eexists. reflexivity. Defined.

Lemma hidden_page_is_silent_witness :
  hidden (step example_env (AVisibility true) example_active) = true ∧
  forallb passive [ATick 0; ATick 0; ASettle 7 NetworkError; AStop (Stop 0); ATick 0] = true ∧
  fetches (run example_env
             [ATick 0; ATick 0; ASettle 7 NetworkError; AStop (Stop 0); ATick 0]
             (step example_env (AVisibility true) example_active))
    = fetches (step example_env (AVisibility true) example_active).
Proof.
  split; [reflexivity|]. split; [reflexivity|].
  exact (proj1 (hidden_page_is_silent example_env
                  [ATick 0; ATick 0; ASettle 7 NetworkError; AStop (Stop 0); ATick 0]
                  (step example_env (AVisibility true) example_active)
                  eq_refl eq_refl)).
Defined.

Lemma heartbeat_every_tick_witness :
  intervals example_active !! 0
    = Some (Heartbeat 0 example_url example_options (VStr "5f3c")) ∧
  isStopped example_active !! 0 = Some false ∧
  hidden example_active = false ∧
  heartbeat_sends example_env 0 (replicate 3 (ATick 0)) example_active = 3.
Proof.
  assert (Hi : intervals example_active !! 0
                 = Some (Heartbeat 0 example_url example_options (VStr "5f3c"))).
  { vm_compute. reflexivity. }
  split; [exact Hi|]. split; [reflexivity|]. split; [reflexivity|].
  exact (proj2 (proj2 (heartbeat_every_tick example_env example_active 0 0
                         example_url example_options (VStr "5f3c") 3
                         Hi eq_refl eq_refl))).
Defined.

Lemma gated_page_is_silent_witness :
  forallb on_fake
    [ARecord fakeInstance (VStr "domain") VUndefined None; ATick 0;
     AUpdateAction fakeInstance (VStr "a1") VNull; AStop NoopStop] = true ∧
  trace (run example_env
           [ARecord fakeInstance (VStr "domain") VUndefined None; ATick 0;
            AUpdateAction fakeInstance (VStr "a1") VNull; AStop NoopStop]
           (init false)) = [].
Proof.
  split; [reflexivity|].
  exact (proj1 (gated_page_is_silent example_env
                  [ARecord fakeInstance (VStr "domain") VUndefined None; ATick 0;
                   AUpdateAction fakeInstance (VStr "a1") VNull; AStop NoopStop]
                  false eq_refl)).
Defined.

Lemma session_ownership_witness :
  reachable example_env example_active ∧
  ∀ t c u o rid,
    intervals example_active !! t = Some (Heartbeat c u o rid) →
    c < length (isStopped example_active) ∧ isFakeId rid = false.
Proof.
  split; [exact example_active_reachable|].
  exact (proj2 (proj2 (proj2
    (session_ownership example_env example_active example_active_reachable)))).
Defined.

Lemma failed_create_is_silent_witness :
  reachable example_env example_pending ∧
  inflight example_pending !! 0
    = Some (Some (RecordCreated 0 example_url example_options (Some example_fn))) ∧
  returned_id "createRecord" (Response false None) = None ∧
  ∀ acts,
    heartbeat_sends example_env 0 acts (settle 0 (Response false None) example_pending) = 0.
Proof.
  assert (H : inflight example_pending !! 0
    = Some (Some (RecordCreated 0 example_url example_options (Some example_fn)))).
  { vm_compute. reflexivity. }
  split; [exact example_pending_reachable|]. split; [exact H|]. split; [reflexivity|].
  intros acts.
  exact (proj2 (proj2 (proj2
    (failed_create_is_silent example_env example_pending 0 0 example_url
       example_options (Some example_fn) (Response false None)
       example_pending_reachable H eq_refl) acts))).
Defined.

Lemma updateRecord_sentinel_witness :
  reachable example_env example_active ∧
  isFakeId (VStr fakeId) = true ∧
  fetches (fst (_updateRecord example_url example_options (VStr fakeId) example_active))
    = fetches example_active.
Proof.
  split; [exact example_active_reachable|]. split; [reflexivity|].
  exact (proj1 (proj2 (proj2
    (updateRecord_sentinel example_env example_url example_options (VStr fakeId)
       example_active example_active_reachable eq_refl)))).
Defined.

Lemma detect_defaults_witness :
  example_parse "{}" = Ok (VObj []) ∧
  (data_sol_opts example_element = None ∨ data_sol_opts example_element = Some "") ∧
  isBot (userAgent example_env) = false ∧
  isLocalhost (hostname example_env) = false ∧
  snd (detect example_parse example_env (Some example_element) (init false)) = Ok ().
Proof.
  split; [reflexivity|]. split; [by left|]. split; [reflexivity|]. split; [reflexivity|].
  exact (proj1 (proj2 (proj2
    (detect_defaults example_parse example_env example_element (init false)
       eq_refl (or_introl eq_refl) eq_refl)) eq_refl)).
Defined.

(** ** Unknown option fields *)

Lemma lookup_field_other k k' x fs1 fs2 :
  k ≠ k' →
  lookup_field k' (fs1 ++ (k, x) :: fs2) = lookup_field k' (fs1 ++ fs2).
Proof.
  intros Hne. induction fs1 as [|[k1 v1] fs1 IH].
  - cbn. destruct (lookup_field k' fs2); [done|].
    destruct (String.eqb_spec k' k); [congruence|done].
  - cbn. by rewrite IH.
Qed.

(** X20: a field of the options object that is none of the three options
    does not change what [validate] returns, wherever it stands. *)
Theorem validate_ignores_other_fields k x fs1 fs2 :
  k ∉ ["detailed"; "ignoreLocalhost"; "ignoreOwnVisits"] →
  validate (VObj (fs1 ++ (k, x) :: fs2)) = validate (VObj (fs1 ++ fs2)).
Proof.
  intros Hk. unfold validate. cbn [get mbind result_bind].
  rewrite !(lookup_field_other k); [done|..]; intros ->; apply Hk;
    repeat first [apply list_elem_of_here | apply list_elem_of_further].
Qed.

Lemma validate_ignores_other_fields_witness :
  ("theme" ∉ ["detailed"; "ignoreLocalhost"; "ignoreOwnVisits"]) ∧
  validate (VObj ([("detailed", VBool true)] ++ ("theme", VStr "dark") ::
                  [("ignoreLocalhost", VBool false)]))
  = validate (VObj ([("detailed", VBool true)] ++ [("ignoreLocalhost", VBool false)])).
Proof.
  assert (H : "theme" ∉ ["detailed"; "ignoreLocalhost"; "ignoreOwnVisits"]).
  { intros Hin. repeat (apply elem_of_cons in Hin as [Hin|Hin]; [discriminate|]).
    by apply elem_of_nil in Hin. }
  split; [exact H|].
  exact (validate_ignores_other_fields "theme" (VStr "dark")
           [("detailed", VBool true)] [("ignoreLocalhost", VBool false)] H).
Defined.
